(** * MTMLDA: the sampler driver and the runner utilities

    A shallow embedding of [src/mtmlda/sampling.py] (the four-phase driver
    [MTMLDASampler]) and of [utilities/utilities.py] (seed distribution, the
    per-process artifact names and the request for the model server), with
    the dataclass of [components/general_settings.py] and the argument
    handling of [examples/postprocessing.py].

    Python objects live in explicit stores: tree nodes in a heap indexed by
    object identity, random generators behind references, the chain as the
    one list object [mcmc_chain] that [run] creates and [_propagate_chain]
    appends to.  Code that can raise or loop for ever runs in a small monad
    whose outcomes are a value, an exception (the mutations made so far are
    kept) or divergence.  The collaborators whose code is outside
    [sampling.py] (job handler, tree modifier and search, kernel, estimator,
    logger, visualizer) are the fields of one record; every theorem about the
    driver holds for all of them. *)

From Stdlib Require Import ZArith List String Ascii Floats Uint63 Bool Lia Permutation DecimalString.
From Stdlib Require DecimalZ DecimalPos.
From stdpp Require Import base list.
Import ListNotations.

Local Open Scope string_scope.
Local Open Scope Z_scope.

(** ** Python prelude *)

(** The exceptions the modelled code raises or tells apart.  [RecursionError]
    is the only one [run] names in a handler. *)
Inductive PyExn : Type :=
| RecursionError
| UnboundLocalError
| ZeroDivisionError
| IndexError
| ValueError
| FileExistsError
| FileNotFoundError
| ReferenceError
| KeyboardInterrupt
| SystemExit
| OtherError (tag : string).

(** [str(i)] for a Python [int], as an f-string formats it. *)
Definition str (z : Z) : string := NilZero.string_of_int (Z.to_int z).

(** [len(l)] as a Python [int]. *)
Definition len {A : Type} (l : list A) : Z := Z.of_nat (length l).

(** [range(n)]. *)
Definition range (n : Z) : list Z := map Z.of_nat (seq 0 (Z.to_nat n)).

(** Outcome of running a piece of Python on a store [S]. *)
Inductive Res (S A : Type) : Type :=
| Ok (a : A) (s : S)
| Raise (e : PyExn) (s : S)
| Diverge.
Arguments Ok {S A} a s.
Arguments Raise {S A} e s.
Arguments Diverge {S A}.

Definition M (S A : Type) : Type := S -> Res S A.

Definition ret {S A : Type} (a : A) : M S A := fun s => Ok a s.

Definition bind {S A B : Type} (c : M S A) (k : A -> M S B) : M S B :=
  fun s =>
    match c s with
    | Ok a s' => k a s'
    | Raise e s' => Raise e s'
    | Diverge => Diverge
    end.

Definition raise {S A : Type} (e : PyExn) : M S A := fun s => Raise e s.

Definition diverge {S A : Type} : M S A := fun _ => Diverge.

Definition get {S : Type} : M S S := fun s => Ok s s.

Definition modify {S : Type} (f : S -> S) : M S unit := fun s => Ok tt (f s).

(** [try: c  except BaseException as exc: handler exc]. *)
Definition try_except {S A : Type} (c : M S A) (handler : PyExn -> M S A) : M S A :=
  fun s =>
    match c s with
    | Ok a s' => Ok a s'
    | Raise e s' => handler e s'
    | Diverge => Diverge
    end.

(** [with ... :] and [try: c  finally: fin] where [fin] does not return: the
    clean-up runs on both exits and an exception of the body is re-raised
    after it, unless the clean-up raises itself. *)
Definition finally_ {S A : Type} (c : M S A) (fin : M S unit) : M S A :=
  fun s =>
    match c s with
    | Ok a s' =>
        match fin s' with
        | Ok _ s'' => Ok a s''
        | Raise e s'' => Raise e s''
        | Diverge => Diverge
        end
    | Raise e s' =>
        match fin s' with
        | Ok _ s'' => Raise e s''
        | Raise e' s'' => Raise e' s''
        | Diverge => Diverge
        end
    | Diverge => Diverge
    end.

(** A value computed from the store without changing it; it may raise. *)
Definition read {S A : Type} (f : S -> PyExn + A) : M S A :=
  fun s => match f s with inr a => Ok a s | inl e => Raise e s end.

Declare Scope py_scope.
Delimit Scope py_scope with py.
Notation "x <- c ;; k" := (bind c (fun x => k))
  (at level 100, c at next level, right associativity) : py_scope.
Notation "c ;; k" := (bind c (fun _ => k))
  (at level 100, right associativity) : py_scope.

(** [for x in l: body x]. *)
Fixpoint for_each {S A : Type} (l : list A) (body : A -> M S unit) : M S unit :=
  match l with
  | [] => ret tt
  | x :: l' => bind (body x) (fun _ => for_each l' body)
  end.

(** Values handed to the statistics and to the logger. *)
Inductive PyVal : Type :=
| VNone
| VInt (z : Z)
| VFloat (f : float)
| VArray (a : list float).

Definition of_option_float (o : option float) : PyVal :=
  match o with Some f => VFloat f | None => VNone end.

(** The value a computation returned, if it returned. *)
Definition returned {S A : Type} (r : Res S A) : option A :=
  match r with Ok a _ => Some a | _ => None end.

(** The computation returned normally. *)
Definition completes {S A : Type} (r : Res S A) : bool :=
  match r with Ok _ _ => true | _ => false end.

(** The store a computation left, [d] when it never ended. *)
Definition final {S A : Type} (d : S) (r : Res S A) : S :=
  match r with Ok _ s => s | Raise _ s => s | Diverge => d end.

(** [str(b)] for a Python [bool]. *)
Definition str_bool (b : bool) : string := if b then "True" else "False".

(** ** The sampler: data model *)

Module Sampling.

(** [np.ndarray] holding a parameter sample. *)
Definition State : Type := list float.

(** Identity of a tree node: its index in the heap of node objects. *)
Abbreviation ref := nat.

(** The attributes of an [MTNode] the driver reads or writes.  The tree
    structure is the node's parent link, as [anytree] keeps it; the children
    of a node are the nodes whose parent it is. *)
Record MTNode : Type := mkMTNode {
  name : string;
  parent : option ref;
  state : State;
  random_draw : float;
  level : Z;
  subchain_index : Z;
  logposterior : option float;
  probability_reached : option float
}.

Definition with_parent (p : option ref) (n : MTNode) : MTNode :=
  mkMTNode (name n) p (state n) (random_draw n) (level n) (subchain_index n)
           (logposterior n) (probability_reached n).

Definition with_logposterior (lp : option float) (n : MTNode) : MTNode :=
  mkMTNode (name n) (parent n) (state n) (random_draw n) (level n) (subchain_index n)
           lp (probability_reached n).

Definition with_probability_reached (p : option float) (n : MTNode) : MTNode :=
  mkMTNode (name n) (parent n) (state n) (random_draw n) (level n) (subchain_index n)
           (logposterior n) p.

Abbreviation Heap := (list MTNode).

(** *** anytree *)

Definition is_child_of (h : Heap) (p : ref) (i : ref) : bool :=
  match h !! i with
  | Some n => match parent n with Some q => Nat.eqb q p | None => false end
  | None => false
  end.

(** [node.children]. *)
Definition children (h : Heap) (p : ref) : list ref :=
  List.filter (is_child_of h p) (seq 0 (length h)).

(** [node.height]: the number of edges on the longest path down to a leaf.
    The recursion is bounded by the number of nodes. *)
Fixpoint height_from (fuel : nat) (h : Heap) (n : ref) : Z :=
  match fuel with
  | O => 0
  | S fuel' =>
      match children h n with
      | [] => 0
      | cs => 1 + fold_right Z.max 0 (map (height_from fuel' h) cs)
      end
  end.

Definition height (h : Heap) (n : ref) : Z := height_from (length h) h n.

(** [atree.LevelOrderGroupIter(root)]: the nodes of the tree, one group per
    depth, starting with [[root]]. *)
Fixpoint level_groups (fuel : nat) (h : Heap) (group : list ref) : list (list ref) :=
  match group, fuel with
  | [], _ => []
  | _, O => []
  | _, S fuel' => group :: level_groups fuel' h (flat_map (children h) group)
  end.

Definition LevelOrderGroupIter (h : Heap) (root : ref) : list (list ref) :=
  level_groups (length h) h [root].

(** [node.parent = None]: the node leaves its parent's children; its own
    subtree stays attached to it. *)
Definition detach (n : ref) (h : Heap) : Heap := alter (with_parent None) n h.

(** [node.logposterior = result]. *)
Definition set_logposterior (n : ref) (r : float) (h : Heap) : Heap :=
  alter (with_logposterior (Some r)) n h.

(** [n] is [r] or below it. *)
Inductive in_subtree (h : Heap) (r : ref) : ref -> Prop :=
| in_subtree_root : in_subtree h r r
| in_subtree_child (n p : ref) (nd : MTNode) :
    h !! n = Some nd -> parent nd = Some p -> in_subtree h r p -> in_subtree h r n.

(** *** Settings *)

Record SamplerSetupSettings : Type := {
  num_levels : Z;
  subsampling_rates : list Z;
  max_tree_height : Z;
  underflow_threshold : float;
  rng_seed_mltree : Z;
  rng_seed_node_init : Z
}.

Record SamplerRunSettings : Type := {
  num_samples : Z;
  initial_state : State;
  num_threads : Z;
  print_interval : Z;
  tree_render_interval : Z
}.

(** [RNGStates]: three references to generator objects. *)
Record RNGStates : Type := {
  proposal : nat;
  mltree : nat;
  node_init : nat
}.

(** *** Stores *)

(** Everything the collaborators can reach: the node heap, the generator
    objects and the three attributes that point to them, and the
    collaborators' own state [X] (job handler, estimator, statistics, logger,
    clock). *)
Record Store (G X : Type) : Type := mkStore {
  heap : Heap;
  generators : nat -> G;
  ground_proposal_rng : nat;
  mltree_modifier_rng : nat;
  rng_node_init : nat;
  ext : X
}.
Arguments mkStore {G X}.
Arguments heap {G X}.
Arguments generators {G X}.
Arguments ground_proposal_rng {G X}.
Arguments mltree_modifier_rng {G X}.
Arguments rng_node_init {G X}.
Arguments ext {G X}.

(** The state [run] works on: the store, the list object [mcmc_chain] and the
    local variable [mltree_root] of [run], which the exception handler
    reads. *)
Record Sigma (G X : Type) : Type := mkSigma {
  store : Store G X;
  mcmc_chain : list State;
  mltree_root : ref
}.
Arguments mkSigma {G X}.
Arguments store {G X}.
Arguments mcmc_chain {G X}.
Arguments mltree_root {G X}.

Inductive StatsId : Type := RunStatistics | DebugStatistics.

(** *** Collaborators *)

(** The operations of the modules [sampling.py] imports.  Tree modifier, job
    handler and estimator act on the whole store; the search functions and the
    kernel read it; statistics, logger and visualizer act on the collaborator
    state only, the visualizer reading the tree it renders. *)
Record Collaborators (G X : Type) : Type := {
  (* numpy, time, concurrent.futures *)
  np_uniform : G -> float * G;
  time_time : X -> float * X;
  executor_enter : Z -> M (Store G X) unit;
  executor_exit : M (Store G X) unit;
  (* jobhandling.JobHandler *)
  JobHandler_init : Z -> M (Store G X) unit;
  workers_available : M (Store G X) bool;
  submit_job : ref -> M (Store G X) unit;
  get_finished_jobs : M (Store G X) (list float * list ref);
  num_evaluations : Store G X -> Z -> PyExn + PyVal;
  (* mltree.MLTreeModifier *)
  expand_tree : ref -> M (Store G X) unit;
  update_probability_reached : ref -> M (Store G X) unit;
  update_descendants : ref -> M (Store G X) unit;
  discard_rejected_nodes : ref -> bool -> M (Store G X) unit;
  compress_resolved_subchains : ref -> M (Store G X) unit;
  (* mltree.MLTreeSearchFunctions *)
  find_max_probability_node : Store G X -> ref -> PyExn + ref;
  check_if_node_is_available_for_decision : Store G X -> ref -> PyExn + (bool * bool * bool);
  get_same_level_parent : Store G X -> ref -> PyExn + ref;
  get_unique_same_subchain_child : Store G X -> ref -> PyExn + option ref;
  (* mcmc *)
  compute_single_level_decision : Store G X -> ref -> PyExn + bool;
  compute_two_level_decision : Store G X -> ref -> ref -> PyExn + bool;
  estimator_update : bool -> ref -> M (Store G X) unit;
  get_acceptance_rate : Store G X -> Z -> PyExn + PyVal;
  (* logging, mltree.MLTreeVisualizer *)
  set_value : StatsId -> string -> PyVal -> M X unit;
  print_log_header : M X unit;
  log_run_statistics : M X unit;
  log_debug_statistics : string -> M X unit;
  logger_exception : PyExn -> M X unit;
  print_debug_new_samples : Z -> M X unit;
  print_debug_tree_export : PyVal -> M X unit;
  export_to_dot : Heap -> ref -> M X PyVal
}.
Arguments np_uniform {G X} _.
Arguments time_time {G X} _.
Arguments executor_enter {G X} _.
Arguments executor_exit {G X} _.
Arguments JobHandler_init {G X} _.
Arguments workers_available {G X} _.
Arguments submit_job {G X} _.
Arguments get_finished_jobs {G X} _.
Arguments num_evaluations {G X} _.
Arguments expand_tree {G X} _.
Arguments update_probability_reached {G X} _.
Arguments update_descendants {G X} _.
Arguments discard_rejected_nodes {G X} _.
Arguments compress_resolved_subchains {G X} _.
Arguments find_max_probability_node {G X} _.
Arguments check_if_node_is_available_for_decision {G X} _.
Arguments get_same_level_parent {G X} _.
Arguments get_unique_same_subchain_child {G X} _.
Arguments compute_single_level_decision {G X} _.
Arguments compute_two_level_decision {G X} _.
Arguments estimator_update {G X} _.
Arguments get_acceptance_rate {G X} _.
Arguments set_value {G X} _.
Arguments print_log_header {G X} _.
Arguments log_run_statistics {G X} _.
Arguments log_debug_statistics {G X} _.
Arguments logger_exception {G X} _.
Arguments print_debug_new_samples {G X} _.
Arguments print_debug_tree_export {G X} _.
Arguments export_to_dot {G X} _.

(** ** The sampler: [MTMLDASampler] *)

Section Driver.

Context {G X : Type}.
Variable C : Collaborators G X.
Variable setup : SamplerSetupSettings.

Local Open Scope py_scope.

(** Running a collaborator on its part of the state. *)
Definition on_store {A : Type} (c : M (Store G X) A) : M (Sigma G X) A :=
  fun sg =>
    match c (store sg) with
    | Ok a st => Ok a (mkSigma st (mcmc_chain sg) (mltree_root sg))
    | Raise e st => Raise e (mkSigma st (mcmc_chain sg) (mltree_root sg))
    | Diverge => Diverge
    end.

Definition with_ext (x : X) (st : Store G X) : Store G X :=
  mkStore (heap st) (generators st) (ground_proposal_rng st) (mltree_modifier_rng st)
          (rng_node_init st) x.

Definition with_heap (h : Heap) (st : Store G X) : Store G X :=
  mkStore h (generators st) (ground_proposal_rng st) (mltree_modifier_rng st)
          (rng_node_init st) (ext st).

Definition on_ext {A : Type} (c : M X A) : M (Store G X) A :=
  fun st =>
    match c (ext st) with
    | Ok a x => Ok a (with_ext x st)
    | Raise e x => Raise e (with_ext x st)
    | Diverge => Diverge
    end.

Definition logging {A : Type} (c : M X A) : M (Sigma G X) A := on_store (on_ext c).

Definition search {A : Type} (f : Store G X -> PyExn + A) : M (Sigma G X) A :=
  on_store (read f).

(** [node.attr], read. *)
Definition node_attr {A : Type} (f : MTNode -> A) (n : ref) : M (Sigma G X) A :=
  read (fun sg => match heap (store sg) !! n with
                  | Some nd => inr (f nd)
                  | None => inl ReferenceError
                  end).

(** [node.attr = v], through the heap update [upd]. *)
Definition node_set (upd : ref -> Heap -> Heap) (n : ref) : M (Sigma G X) unit :=
  fun sg =>
    match heap (store sg) !! n with
    | Some _ => Ok tt (mkSigma (with_heap (upd n (heap (store sg))) (store sg))
                               (mcmc_chain sg) (mltree_root sg))
    | None => Raise ReferenceError sg
    end.

Definition get_chain : M (Sigma G X) (list State) := fun sg => Ok (mcmc_chain sg) sg.

(** [mcmc_chain.append(x)]. *)
Definition chain_append (x : State) : M (Sigma G X) unit :=
  modify (fun sg => mkSigma (store sg) (mcmc_chain sg ++ [x])%list (mltree_root sg)).

Definition set_mltree_root (r : ref) : M (Sigma G X) unit :=
  modify (fun sg => mkSigma (store sg) (mcmc_chain sg) r).

Definition clock : M X float :=
  fun x => let (t, x') := time_time C x in Ok t x'.

(** [_export_debug_tree]. *)
Definition _export_debug_tree (root : ref) : M (Sigma G X) unit :=
  sg <- get ;;
  tree_id <- logging (export_to_dot C (heap (store sg)) root) ;;
  logging (print_debug_tree_export C tree_id).

(** [_update_debug_statistics]. *)
Definition _update_debug_statistics (node : ref) : M (Sigma G X) unit :=
  v <- node_attr level node ;;
  logging (set_value C DebugStatistics "level" (VInt v)) ;;
  v <- node_attr subchain_index node ;;
  logging (set_value C DebugStatistics "index" (VInt v)) ;;
  v <- node_attr state node ;;
  logging (set_value C DebugStatistics "state" (VArray v)) ;;
  v <- node_attr random_draw node ;;
  logging (set_value C DebugStatistics "draw" (VFloat v)) ;;
  v <- node_attr logposterior node ;;
  logging (set_value C DebugStatistics "logp" (of_option_float v)) ;;
  v <- node_attr probability_reached node ;;
  logging (set_value C DebugStatistics "reached" (of_option_float v)).

(** [_log_debug_statistics]. *)
Definition _log_debug_statistics (info : string) (node : ref) : M (Sigma G X) unit :=
  _update_debug_statistics node ;;
  logging (log_debug_statistics C info).

Section Running.

Variable rs : SamplerRunSettings.
Variable start_time : float.

(** [_update_run_statistics]. *)
Definition _update_run_statistics : M (Sigma G X) unit :=
  t <- logging clock ;;
  logging (set_value C RunStatistics "time" (VFloat (PrimFloat.sub t start_time))) ;;
  c <- get_chain ;;
  logging (set_value C RunStatistics "num_samples" (VInt (len c))) ;;
  for_each (range (num_levels setup))
    (fun i => v <- search (fun st => num_evaluations C st i) ;;
              logging (set_value C RunStatistics ("evals_l" ++ str i) v)) ;;
  for_each (range (num_levels setup))
    (fun i => v <- search (fun st => get_acceptance_rate C st i) ;;
              logging (set_value C RunStatistics ("accept_rate_l" ++ str i) v)).

(** [_log_run_statistics]; [%] raises on a zero [print_interval]. *)
Definition _log_run_statistics : M (Sigma G X) unit :=
  c <- get_chain ;;
  if print_interval rs =? 0 then raise ZeroDivisionError
  else if (len c mod print_interval rs =? 0) || (len c =? num_samples rs)
       then _update_run_statistics ;; logging (log_run_statistics C)
       else ret tt.

(** [_extend_tree_and_launch_jobs]. *)
Fixpoint _extend_tree_and_launch_jobs (fuel : nat) (root : ref) : M (Sigma G X) unit :=
  match fuel with
  | O => diverge
  | S fuel' =>
      sg <- get ;;
      if height (heap (store sg)) root <=? max_tree_height setup then
        available <- on_store (workers_available C) ;;
        if available : bool then
          on_store (expand_tree C root) ;;
          on_store (update_probability_reached C root) ;;
          new_candidate <- search (fun st => find_max_probability_node C st root) ;;
          on_store (submit_job C new_candidate) ;;
          _log_debug_statistics "submitted" new_candidate ;;
          _export_debug_tree root ;;
          _extend_tree_and_launch_jobs fuel' root
        else ret tt
      else ret tt
  end.

(** The body of the [for] loop of [_update_tree_from_finished_jobs]. *)
Definition update_from_finished_job (root : ref) (job : float * ref) : M (Sigma G X) unit :=
  let (result, node) := job in
  (if PrimFloat.ltb result (underflow_threshold setup) then
     node_set detach node ;;
     _log_debug_statistics "discarded" node
   else
     node_set (fun n => set_logposterior n result) node ;;
     on_store (update_descendants C node) ;;
     _log_debug_statistics "returned" node) ;;
  _export_debug_tree root.

(** [_update_tree_from_finished_jobs]. *)
Definition _update_tree_from_finished_jobs (root : ref) : M (Sigma G X) unit :=
  finished <- on_store (get_finished_jobs C) ;;
  for_each (combine (fst finished) (snd finished)) (update_from_finished_job root).

(** One node of the scan of [_compute_available_mcmc_decisions].  [accepted]
    is the local variable of that name: unbound until a decision assigns it,
    and kept from one decision to the next.  The result is the new value of
    [computing_mcmc_decisions] with the new [accepted]. *)
Definition decide_node (root : ref) (accepted : option bool) (node : ref)
  : M (Sigma G X) (bool * option bool) :=
  flags <- search (fun st => check_if_node_is_available_for_decision C st node) ;;
  let '(node_available_for_decision, is_ground_level_decision, is_two_level_decision) := flags in
  if node_available_for_decision : bool then
    accepted' <-
      (if is_ground_level_decision : bool then
         a <- search (fun st => compute_single_level_decision C st node) ;;
         _log_debug_statistics ("1lmcmc: " ++ str_bool a) node ;;
         ret (Some a)
       else if is_two_level_decision : bool then
         same_level_parent <- search (fun st => get_same_level_parent C st node) ;;
         a <- search (fun st => compute_two_level_decision C st node same_level_parent) ;;
         _log_debug_statistics ("2lmcmc: " ++ str_bool a) node ;;
         ret (Some a)
       else ret accepted) ;;
    match accepted' with
    | None => raise UnboundLocalError
    | Some a =>
        on_store (estimator_update C a node) ;;
        on_store (discard_rejected_nodes C node a) ;;
        _export_debug_tree root ;;
        ret (true, accepted')
    end
  else ret (false, accepted).

(** [for node in level_children], left by [break] after a decision. *)
Fixpoint scan_level (root : ref) (accepted : option bool) (level_children : list ref)
  : M (Sigma G X) (bool * option bool) :=
  match level_children with
  | [] => ret (false, accepted)
  | node :: rest =>
      r <- decide_node root accepted node ;;
      if fst r then ret r else scan_level root (snd r) rest
  end.

(** [for level_children in atree.LevelOrderGroupIter(mltree_root)]. *)
Fixpoint scan_tree (root : ref) (accepted : option bool) (groups : list (list ref))
  : M (Sigma G X) (bool * option bool) :=
  match groups with
  | [] => ret (false, accepted)
  | level_children :: rest =>
      r <- scan_level root accepted level_children ;;
      if fst r then ret r else scan_tree root (snd r) rest
  end.

(** The [while computing_mcmc_decisions] loop. *)
Fixpoint decisions_loop (fuel : nat) (root : ref) (accepted : option bool) : M (Sigma G X) unit :=
  match fuel with
  | O => diverge
  | S fuel' =>
      sg <- get ;;
      r <- scan_tree root accepted (LevelOrderGroupIter (heap (store sg)) root) ;;
      if fst r then decisions_loop fuel' root (snd r) else ret tt
  end.

(** [_compute_available_mcmc_decisions]. *)
Definition _compute_available_mcmc_decisions (fuel : nat) (root : ref) : M (Sigma G X) unit :=
  decisions_loop fuel root None.

(** [_propagate_chain]; the chain it returns is the list object it was
    given. *)
Fixpoint _propagate_chain (fuel : nat) (root : ref) : M (Sigma G X) ref :=
  match fuel with
  | O => diverge
  | S fuel' =>
      unique_child <- search (fun st => get_unique_same_subchain_child C st root) ;;
      match unique_child with
      | Some child =>
          x <- node_attr state root ;;
          chain_append x ;;
          _log_run_statistics ;;
          node_set detach child ;;
          c <- get_chain ;;
          logging (print_debug_new_samples C (len c)) ;;
          _export_debug_tree child ;;
          _propagate_chain fuel' child
      | None => ret root
      end
  end.

(** One iteration of the main loop, up to the test that leaves it. *)
Definition iteration (fuel : nat) : M (Sigma G X) unit :=
  sg <- get ;;
  let root := mltree_root sg in
  _extend_tree_and_launch_jobs fuel root ;;
  _update_tree_from_finished_jobs root ;;
  _compute_available_mcmc_decisions fuel root ;;
  on_store (compress_resolved_subchains C root) ;;
  root' <- _propagate_chain fuel root ;;
  set_mltree_root root'.

(** [while True: ... if len(mcmc_chain) >= self._num_samples: break]. *)
Fixpoint main_loop (fuel : nat) (iterations : nat) : M (Sigma G X) unit :=
  match iterations with
  | O => diverge
  | S iterations' =>
      iteration fuel ;;
      c <- get_chain ;;
      if len c >=? num_samples rs then ret tt else main_loop fuel iterations'
  end.

(** The [try] block of [run]. *)
Definition run_try (fuel : nat) : M (Sigma G X) unit :=
  on_store (executor_enter C (num_threads rs)) ;;
  finally_
    (on_store (JobHandler_init C (num_threads rs)) ;;
     logging (print_log_header C) ;;
     _update_run_statistics ;;
     logging (log_run_statistics C) ;;
     main_loop fuel fuel)
    (on_store (executor_exit C)).

(** The [except BaseException as exc] block of [run]. *)
Definition run_except (exc : PyExn) : M (Sigma G X) unit :=
  logging (logger_exception C exc) ;;
  sg <- get ;;
  try_except (_export_debug_tree (mltree_root sg))
    (fun exc' => match exc' with
                 | RecursionError => logging (logger_exception C exc')
                 | _ => raise exc'
                 end).

End Running.

(** [_init_mltree]: a fresh root named ["a"] with the initial state, a draw
    from the node-init generator, the finest level and subchain index 0. *)
Definition _init_mltree (initial : State) (st : Store G X) : ref * Store G X :=
  let (u, g) := np_uniform C (generators st (rng_node_init st)) in
  let root := mkMTNode "a" None initial u (num_levels setup - 1) 0 None None in
  (length (heap st),
   mkStore (heap st ++ [root])%list
           (fun i => if Nat.eqb i (rng_node_init st) then g else generators st i)
           (ground_proposal_rng st) (mltree_modifier_rng st) (rng_node_init st) (ext st)).

(** The statements of [run] before its [try]: the start time, the root and
    the one-element chain. *)
Definition run_init (rs : SamplerRunSettings) (st : Store G X) : float * Sigma G X :=
  let (start_time, x) := time_time C (ext st) in
  let (root, st') := _init_mltree (initial_state rs) (with_ext x st) in
  (start_time, mkSigma st' [initial_state rs] root).

(** [run].  [finally: return mcmc_chain] ends every path through the [try]
    statement, also one on which the handler itself raises. *)
Definition run (fuel : nat) (rs : SamplerRunSettings) : M (Store G X) (list State) :=
  fun st =>
    let (start_time, sg) := run_init rs st in
    match try_except (run_try rs start_time fuel) (run_except) sg with
    | Ok _ sg' => Ok (mcmc_chain sg') (store sg')
    | Raise _ sg' => Ok (mcmc_chain sg') (store sg')
    | Diverge => Diverge
    end.

(** [get_rngs]. *)
Definition get_rngs (st : Store G X) : RNGStates :=
  {| proposal := ground_proposal_rng st;
     mltree := mltree_modifier_rng st;
     node_init := rng_node_init st |}.

(** [set_rngs]. *)
Definition set_rngs (rng_states : RNGStates) (st : Store G X) : Store G X :=
  mkStore (heap st) (generators st)
          (proposal rng_states) (mltree rng_states) (node_init rng_states) (ext st).

(** [c] relates the state it starts from to the state of each of its exits,
    normal or exceptional. *)
Definition respects (R : Sigma G X -> Sigma G X -> Prop) {A : Type} (c : M (Sigma G X) A) : Prop :=
  forall sg,
    match c sg with
    | Ok _ sg' => R sg sg'
    | Raise _ sg' => R sg sg'
    | Diverge => True
    end.

(** The chain of [sg'] is the chain of [sg] with entries appended. *)
Definition extends (sg sg' : Sigma G X) : Prop :=
  exists appended, mcmc_chain sg' = (mcmc_chain sg ++ appended)%list.

(** The chain is as it was. *)
Definition same_chain (sg sg' : Sigma G X) : Prop := mcmc_chain sg' = mcmc_chain sg.

(** The node heap and the chain are as they were. *)
Definition same_tree (sg sg' : Sigma G X) : Prop :=
  heap (store sg') = heap (store sg) /\ mcmc_chain sg' = mcmc_chain sg.

(** A computation that only ever appends to the chain, on every exit. *)
Definition grows {A : Type} (c : M (Sigma G X) A) : Prop := respects extends c.

(** What one harvested job does to the node heap when [update_descendants]
    rewrites the heap by [ud]. *)
Definition job_effect (ud : ref -> Heap -> Heap) (job : float * ref) (h : Heap) : Heap :=
  if PrimFloat.ltb (fst job) (underflow_threshold setup)
  then detach (snd job) h
  else ud (snd job) (set_logposterior (snd job) (fst job) h).

(** The successive roots of [_propagate_chain]: from root [r] in heap [h]
    the entries [appended] are the states of the nodes that were the root,
    each read when it was, and the walk ends at root [r'] in heap [h']. *)
Inductive root_walk : Heap -> ref -> list State -> Heap -> ref -> Prop :=
| walk_stop (h : Heap) (r : ref) : root_walk h r [] h r
| walk_step (h : Heap) (r : ref) (nd : MTNode) (st : Store G X) (child : ref)
            (appended : list State) (h' : Heap) (r' : ref) :
    heap st = h ->
    get_unique_same_subchain_child C st r = inr (Some child) ->
    h !! r = Some nd ->
    root_walk (detach child h) child appended h' r' ->
    root_walk h r (state nd :: appended) h' r'.

End Driver.

(** [R] does not look at the collaborators' own state. *)
Class ExtBlind {G X : Type} (R : Sigma G X -> Sigma G X -> Prop) : Prop :=
  ext_blind : forall sg x,
    R sg (mkSigma (with_ext x (store sg)) (mcmc_chain sg) (mltree_root sg)).

(** [R] looks at the chain only. *)
Class StoreBlind {G X : Type} (R : Sigma G X -> Sigma G X -> Prop) : Prop :=
  store_blind : forall sg st r, R sg (mkSigma st (mcmc_chain sg) r).

End Sampling.

(** ** The runner utilities: [utilities.py] *)

Module Utilities.

Local Open Scope py_scope.

(** [seeds: Union[list, int]]. *)
Inductive Seeds : Type :=
| SeedList (l : list Z)
| SeedInt (n : Z).

(** [l[i]] for a list: negative indices count from the end. *)
Definition getitem {A : Type} (l : list A) (i : Z) : PyExn + A :=
  let j := if i <? 0 then i + len l else i in
  if j <? 0 then inl IndexError
  else match nth_error l (Z.to_nat j) with
       | Some v => inr v
       | None => inl IndexError
       end.

(** [distribute_rng_seeds_to_processes]. *)
Definition distribute_rng_seeds_to_processes (seeds : Seeds) (process_id : Z) : PyExn + Z :=
  match seeds with
  | SeedList l => getitem l process_id
  | SeedInt n => inr (n * process_id)
  end.

(** *** pathlib *)

(** A parsed path: the anchor (["/"] or nothing) and the components after
    it. *)
Record Path : Type := mkPath {
  anchor : string;
  parts : list string
}.

(** [path.name]: the final component, empty when there is none. *)
Definition name (p : Path) : string := List.last (parts p) "".

(** [path.parent]. *)
Definition parent (p : Path) : Path := mkPath (anchor p) (removelast (parts p)).

(** [s.rfind(c)]. *)
Fixpoint rfind_from (c : ascii) (s : string) (i : Z) (found : Z) : Z :=
  match s with
  | EmptyString => found
  | String a s' => rfind_from c s' (i + 1) (if Ascii.eqb a c then i else found)
  end.

Definition rfind (c : ascii) (s : string) : Z := rfind_from c s 0 (-1).

Definition strlen (s : string) : Z := Z.of_nat (String.length s).

(** [path.suffix]: from the last dot of the name on, unless that dot is the
    first or the last character. *)
Definition suffix (p : Path) : string :=
  let i := rfind "." (name p) in
  if (0 <? i) && (i <? strlen (name p) - 1)
  then substring (Z.to_nat i) (String.length (name p) - Z.to_nat i) (name p)
  else "".

(** [path.stem]: the name without its suffix. *)
Definition stem (p : Path) : string :=
  let i := rfind "." (name p) in
  if (0 <? i) && (i <? strlen (name p) - 1)
  then substring 0 (Z.to_nat i) (name p)
  else name p.

Fixpoint contains (c : ascii) (s : string) : bool :=
  match s with
  | EmptyString => false
  | String a s' => Ascii.eqb a c || contains c s'
  end.

(** [path.with_name(new)]. *)
Definition with_name (p : Path) (new : string) : PyExn + Path :=
  if String.eqb (name p) "" then inl ValueError
  else if String.eqb new "" || contains "/" new || String.eqb new "." then inl ValueError
  else inr (mkPath (anchor p) (removelast (parts p) ++ [new])%list).

(** [append_string_to_path]. *)
Definition append_string_to_path (path : Path) (string : string) : PyExn + Path :=
  with_name path (name path ++ "_" ++ string).

(** *** Files *)

Fixpoint parts_eqb (a b : list string) : bool :=
  match a, b with
  | [], [] => true
  | x :: a', y :: b' => String.eqb x y && parts_eqb a' b'
  | _, _ => false
  end.

Definition Path_eqb (p q : Path) : bool :=
  String.eqb (anchor p) (anchor q) && parts_eqb (parts p) (parts q).

(** [s.endswith(suffix)]. *)
Fixpoint endswith (s suf : string) : bool :=
  String.eqb s suf
  || match s with
     | EmptyString => false
     | String _ s' => endswith s' suf
     end.

Section Files.

(** The objects [pickle] writes: node snapshots and [RNGStates]. *)
Variable Obj : Type.

Inductive Blob : Type :=
| Npy (a : list (list float))
| Pickle (o : Obj).

(** The directories and the files that exist. *)
Record FS : Type := mkFS {
  dirs : list Path;
  files : list (Path * Blob)
}.

Definition is_dir (fs : FS) (p : Path) : bool :=
  match parts p with
  | [] => true
  | _ => existsb (Path_eqb p) (dirs fs)
  end.

Definition read_file (fs : FS) (p : Path) : option Blob :=
  match List.find (fun e => Path_eqb p (fst e)) (files fs) with
  | Some e => Some (snd e)
  | None => None
  end.

Definition write_file (p : Path) (b : Blob) : M FS unit :=
  fun fs =>
    if is_dir fs (parent p)
    then Ok tt (mkFS (dirs fs) ((p, b) :: files fs))
    else Raise FileNotFoundError fs.

Definition ancestors (p : Path) : list Path :=
  map (fun k => mkPath (anchor p) (firstn k (parts p))) (seq 1 (length (parts p))).

(** [os.makedirs(p, exist_ok=exist_ok)]. *)
Definition os_makedirs (p : Path) (exist_ok : bool) : M FS unit :=
  fun fs =>
    if is_dir fs p
    then if exist_ok then Ok tt fs else Raise FileExistsError fs
    else Ok tt (mkFS (ancestors p ++ dirs fs)%list (files fs)).

(** [np.save(file, arr)]: [.npy] is appended to a name that lacks it. *)
Definition np_save (file : Path) (arr : list (list float)) : M FS unit :=
  let file' :=
    if endswith (name file) ".npy" then file
    else mkPath (anchor file) (removelast (parts file) ++ [(name file ++ ".npy")%string])%list in
  write_file file' (Npy arr).

(** [np.load(file)]. *)
Definition np_load (file : Path) : M FS (list (list float)) :=
  fun fs =>
    match read_file fs file with
    | Some (Npy a) => Ok a fs
    | Some (Pickle _) => Raise ValueError fs
    | None => Raise FileNotFoundError fs
    end.

(** [with file.open("wb") as f: pickle.dump(obj, f)]. *)
Definition pickle_dump (obj : Obj) (file : Path) : M FS unit := write_file file (Pickle obj).

(** [with file.open("rb") as f: pickle.load(f)]. *)
Definition pickle_load (file : Path) : M FS Obj :=
  fun fs =>
    match read_file fs file with
    | Some (Pickle o) => Ok o fs
    | Some (Npy _) => Raise ValueError fs
    | None => Raise FileNotFoundError fs
    end.

Definition lift {A : Type} (r : PyExn + A) : M FS A := read (fun _ => r).

(** [load_chain]. *)
Definition load_chain (process_id : Z) (load_path : Path) : M FS (list (list float)) :=
  chain_file <- lift (append_string_to_path load_path (str process_id ++ ".npy")) ;;
  np_load chain_file.

(** [save_chain]. *)
Definition save_chain (process_id : Z) (save_path : Path) (mcmc_trace : list (list float))
           (exist_ok : bool) : M FS unit :=
  os_makedirs (parent save_path) exist_ok ;;
  chain_file <- lift (append_string_to_path save_path (str process_id ++ ".npy")) ;;
  np_save chain_file mcmc_trace.

(** [load_node]. *)
Definition load_node (process_id : Z) (load_path : Path) : M FS Obj :=
  node_file <- lift (append_string_to_path load_path (str process_id ++ ".pkl")) ;;
  pickle_load node_file.

(** [save_node]. *)
Definition save_node (process_id : Z) (save_path : Path) (node : Obj) (exist_ok : bool)
  : M FS unit :=
  os_makedirs (parent save_path) exist_ok ;;
  node_file <- lift (append_string_to_path save_path (str process_id ++ ".pkl")) ;;
  pickle_dump node node_file.

(** [load_rng_states]. *)
Definition load_rng_states (process_id : Z) (load_path : Path) : M FS Obj :=
  rng_state_file <- lift (append_string_to_path load_path (str process_id ++ ".pkl")) ;;
  pickle_load rng_state_file.

(** [save_rng_states]. *)
Definition save_rng_states (process_id : Z) (save_path : Path) (rng_states : Obj)
           (exist_ok : bool) : M FS unit :=
  os_makedirs (parent save_path) exist_ok ;;
  rng_state_file <- lift (append_string_to_path save_path (str process_id ++ ".pkl")) ;;
  pickle_dump rng_states rng_state_file.

End Files.

End Utilities.

(** ** A reference world: single-level prefetching

    The collaborators of [sampling.py] for one level, small enough to run.
    They are used to run the driver on concrete inputs; the theorems about
    the driver do not depend on them. *)

Module Reference.

Import Sampling.

Local Open Scope float_scope.

(** A generator object: a 32-bit linear congruential generator. *)
Definition Gen : Type := Z.

Definition float_of_Z (z : Z) : float := PrimFloat.of_uint63 (Uint63.of_Z z).

(** [rng.uniform(low=0, high=1)]. *)
Definition uniform (g : Gen) : float * Gen :=
  let g' := ((1664525 * g + 1013904223) mod 4294967296)%Z in
  (float_of_Z g' / float_of_Z 4294967296, g').

(** [exp] by its series after halving the argument ten times; exact at 0. *)
Definition exp_taylor (x : float) : float :=
  1 + x * (1 + x / 2 * (1 + x / 3 * (1 + x / 4 * (1 + x / 5 * (1 + x / 6 *
      (1 + x / 7 * (1 + x / 8))))))).

Fixpoint square_n (n : nat) (x : float) : float :=
  match n with
  | O => x
  | S n' => square_n n' (x * x)
  end.

Definition exp_float (x : float) : float :=
  if x <? -745 then 0
  else if 709 <? x then infinity
  else square_n 10 (exp_taylor (x / 1024)).

(** The state of the collaborators: the worker pool with the evaluations in
    flight, the completions the environment will deliver to each harvest, the
    evaluation counters, the accept-rate estimates, the clock, the two
    statistics objects, the log and the number of exported trees. *)
Record World : Type := mkWorld {
  capacity : Z;
  in_flight : list ref;
  completions : list (list ref);
  evaluations : list Z;
  accept_rates : list float;
  now : float;
  run_statistics : list (string * PyVal);
  debug_statistics : list (string * PyVal);
  log : list string;
  exports : Z
}.

Definition with_jobs (c : Z) (f : list ref) (d : list (list ref)) (e : list Z) (w : World) : World :=
  mkWorld c f d e (accept_rates w) (now w) (run_statistics w) (debug_statistics w)
          (log w) (exports w).

Definition with_accept_rates (a : list float) (w : World) : World :=
  mkWorld (capacity w) (in_flight w) (completions w) (evaluations w) a (now w)
          (run_statistics w) (debug_statistics w) (log w) (exports w).

Definition with_log (l : list string) (w : World) : World :=
  mkWorld (capacity w) (in_flight w) (completions w) (evaluations w) (accept_rates w) (now w)
          (run_statistics w) (debug_statistics w) l (exports w).

Abbreviation RStore := (Store Gen World).

Definition with_generator (r : nat) (g : Gen) (st : RStore) : RStore :=
  mkStore (heap st) (fun i => if Nat.eqb i r then g else generators st i)
          (ground_proposal_rng st) (mltree_modifier_rng st) (rng_node_init st) (ext st).

(** A draw from the generator object behind reference [r]. *)
Definition draw (r : nat) (st : RStore) : float * RStore :=
  let (u, g) := uniform (generators st r) in (u, with_generator r g st).

Definition mem (n : ref) (l : list ref) : bool := existsb (Nat.eqb n) l.

(** The nodes of the tree under [root], in level order. *)
Definition tree_nodes (h : Heap) (root : ref) : list ref := concat (LevelOrderGroupIter h root).

Section Collaborators.

(** The model of level 0, the width of the random-walk proposal and the
    smoothing parameter of the accept-rate estimator. *)
Variable model : State -> float.
Variable step_width : float.
Variable eta : float.

(** Modelled from the spec: the ground proposal of [mcmc.py], a random walk
    that moves every component by a draw from the proposal generator. *)
Fixpoint propose (x : State) (st : RStore) : State * RStore :=
  match x with
  | [] => ([], st)
  | xi :: x' =>
      let (u, st1) := draw (ground_proposal_rng st) st in
      let (y', st2) := propose x' st1 in
      ((xi + step_width * (2 * u - 1)) :: y', st2)
  end.

(** Modelled from the spec: the expansion rule of [MLTreeModifier] in
    [mltree.py] for one level.  The two alternatives below a leaf: the accepted
    one, named ["a"] as [_init_mltree] names the root, holds a new proposal;
    the rejected one, named ["r"], keeps the leaf's state. *)
Definition add_children (leaf : ref) (st : RStore) : RStore :=
  match heap st !! leaf with
  | None => st
  | Some nd =>
      let (y, st1) := propose (state nd) st in
      let (u1, st2) := draw (mltree_modifier_rng st1) st1 in
      let (u2, st3) := draw (mltree_modifier_rng st2) st2 in
      with_heap
        (heap st3 ++
           [mkMTNode "a" (Some leaf) y u1 (level nd) (subchain_index nd + 1) None None;
            mkMTNode "r" (Some leaf) (state nd) u2 (level nd) (subchain_index nd + 1) None None])%list
        st3
  end.

Definition is_leaf (h : Heap) (n : ref) : bool :=
  match children h n with [] => true | _ => false end.

(** Modelled from the spec: [MLTreeModifier.expand_tree] of [mltree.py], for
    one level: every leaf that has no pending evaluation gets children at the
    same level with the next subchain index, a fresh draw and no
    log-posterior. *)
Definition expand_tree (root : ref) : M RStore unit :=
  fun st =>
    let leaves :=
      List.filter (fun n => is_leaf (heap st) n && negb (mem n (in_flight (ext st))))
                  (tree_nodes (heap st) root) in
    Ok tt (fold_left (fun acc leaf => add_children leaf acc) leaves st).

(** The current accept-rate estimate of a level. *)
Definition rate_of (w : World) (lvl : Z) : float :=
  nth (Z.to_nat lvl) (accept_rates w) 0.5.

Definition reach_of (h : Heap) (alpha : float) (n : ref) : option float :=
  match h !! n with
  | None => None
  | Some nd =>
      match parent nd with
      | None => None
      | Some p =>
          match h !! p with
          | None => None
          | Some pd =>
              match probability_reached pd with
              | None => None
              | Some q =>
                  if Nat.eqb (length (children h p)) 1 then Some q
                  else if String.eqb (name nd) "a" then Some (q * alpha)
                  else Some (q * (1 - alpha))
              end
          end
      end
  end.

(** Modelled from the spec: [MLTreeModifier.update_probability_reached] of
    [mltree.py]: the root has probability 1; an accepted alternative takes
    the estimated accept rate of its level times the probability of its
    parent, the rejected sibling the complement; a child without sibling is
    reached whenever its parent is. *)
Definition update_probability_reached (root : ref) : M RStore unit :=
  fun st =>
    let h0 := alter (with_probability_reached (Some 1)) root (heap st) in
    let assign (h : Heap) (n : ref) : Heap :=
      match h !! n with
      | Some nd => alter (with_probability_reached (reach_of h (rate_of (ext st) (level nd)) n)) n h
      | None => h
      end in
    Ok tt (with_heap (fold_left assign (tl (tree_nodes h0 root)) h0) st).

Definition reach (h : Heap) (n : ref) : float :=
  match h !! n with
  | Some nd => match probability_reached nd with Some q => q | None => 0 end
  | None => 0
  end.

Definition unevaluated (h : Heap) (n : ref) : bool :=
  match h !! n with
  | Some nd => match logposterior nd with None => true | Some _ => false end
  | None => false
  end.

(** Modelled from the spec: [MLTreeSearchFunctions.find_max_probability_node]
    of [mltree.py]: among the nodes without log-posterior and without pending
    evaluation the one with the greatest probability of being reached, the
    first in level order on ties.  The spec names the leaves; the root stops
    being one at the first expansion and has to be evaluated too, so every
    node of the tree is a candidate. *)
Definition find_max_probability_node (st : RStore) (root : ref) : PyExn + ref :=
  let candidates :=
    List.filter (fun n => unevaluated (heap st) n && negb (mem n (in_flight (ext st))))
                (tree_nodes (heap st) root) in
  match candidates with
  | [] => inl ValueError
  | c :: rest =>
      inr (fold_left (fun best n => if reach (heap st) best <? reach (heap st) n then n else best)
                     rest c)
  end.

(** Modelled from the spec: [JobHandler.workers_available] of
    [jobhandling.py]: at least one worker is idle. *)
Definition workers_available : M RStore bool :=
  fun st => Ok (len (in_flight (ext st)) <? capacity (ext st))%Z st.

(** Modelled from the spec: [JobHandler.submit_job] of [jobhandling.py]: the
    node is pending from now on; without an idle worker the submission is
    dropped silently. *)
Definition submit_job (node : ref) : M RStore unit :=
  fun st =>
    let w := ext st in
    if (len (in_flight w) <? capacity w)%Z
    then Ok tt (with_ext (with_jobs (capacity w) (in_flight w ++ [node])%list
                                    (completions w) (evaluations w) w) st)
    else Ok tt st.

Definition count_evaluation (h : Heap) (e : list Z) (n : ref) : list Z :=
  match h !! n with
  | Some nd => alter (Z.add 1) (Z.to_nat (level nd)) e
  | None => e
  end.

Definition evaluate (h : Heap) (n : ref) : float :=
  match h !! n with
  | Some nd => model (state nd)
  | None => nan
  end.

(** Modelled from the spec: [JobHandler.get_finished_jobs] of
    [jobhandling.py]: the evaluations completed since the last call, in
    completion order, each counted once.  Which evaluations have completed is
    the environment's choice: the head of [completions]; when that list is
    used up every evaluation in flight completes. *)
Definition get_finished_jobs : M RStore (list float * list ref) :=
  fun st =>
    let w := ext st in
    let finished :=
      match completions w with
      | [] => in_flight w
      | d :: _ => List.filter (fun n => mem n (in_flight w)) d
      end in
    let w' := with_jobs (capacity w)
                        (List.filter (fun n => negb (mem n finished)) (in_flight w))
                        (tl (completions w))
                        (fold_left (count_evaluation (heap st)) finished (evaluations w)) w in
    Ok (map (evaluate (heap st)) finished, finished) (with_ext w' st).

(** Modelled from the spec: [MLTreeModifier.update_descendants] of
    [mltree.py]: it recomputes readiness only; here readiness is not stored
    but computed by [check_if_node_is_available_for_decision]. *)
Definition update_descendants (node : ref) : M RStore unit := fun st => Ok tt st.

Definition siblings (h : Heap) (n : ref) : list ref :=
  match h !! n with
  | Some nd => match parent nd with
               | Some p => List.filter (fun m => negb (Nat.eqb m n)) (children h p)
               | None => []
               end
  | None => []
  end.

(** Modelled from the spec: [MLTreeModifier.discard_rejected_nodes] of
    [mltree.py]: after a decision the alternative that was not chosen is
    detached with its subtree. *)
Definition discard_rejected_nodes (node : ref) (accepted : bool) : M RStore unit :=
  fun st =>
    if accepted
    then Ok tt (with_heap (fold_left (fun h m => detach m h) (siblings (heap st) node) (heap st)) st)
    else Ok tt (with_heap (detach node (heap st)) st).

(** Modelled from the spec: [MLTreeModifier.compress_resolved_subchains] of
    [mltree.py]: with one level there is no subchain to collapse. *)
Definition compress_resolved_subchains (root : ref) : M RStore unit := fun st => Ok tt st.

(** Modelled from the spec:
    [MLTreeSearchFunctions.check_if_node_is_available_for_decision] of
    [mltree.py]: an accepted alternative whose decision is open (its sibling
    is still attached) is ready when its log-posterior and that of its parent
    are known; with one level every decision is a ground-level one. *)
Definition check_if_node_is_available_for_decision (st : RStore) (node : ref)
  : PyExn + (bool * bool * bool) :=
  let h := heap st in
  match h !! node with
  | None => inl ReferenceError
  | Some nd =>
      match parent nd with
      | None => inr (false, false, false)
      | Some p =>
          let ready :=
            String.eqb (name nd) "a"
            && negb (unevaluated h node) && negb (unevaluated h p)
            && match siblings h node with [] => false | _ => true end in
          inr (ready, ready, false)
      end
  end.

(** Modelled from the spec: [MLTreeSearchFunctions.get_same_level_parent] of
    [mltree.py]: the nearest ancestor of the same level. *)
Definition get_same_level_parent (st : RStore) (node : ref) : PyExn + ref :=
  match heap st !! node with
  | Some nd => match parent nd with Some p => inr p | None => inl ValueError end
  | None => inl ReferenceError
  end.

(** Modelled from the spec:
    [MLTreeSearchFunctions.get_unique_same_subchain_child] of [mltree.py]:
    the child of the root when it has exactly one, its sibling having been
    detached. *)
Definition get_unique_same_subchain_child (st : RStore) (root : ref) : PyExn + option ref :=
  match children (heap st) root with
  | [c] => inr (Some c)
  | _ => inr None
  end.

(** Modelled from the spec: the single-level decision of
    [mcmc.MLMetropolisHastingsKernel]: accept iff
    [random_draw < exp(logposterior - parent.logposterior)]. *)
Definition compute_single_level_decision (st : RStore) (node : ref) : PyExn + bool :=
  match heap st !! node with
  | None => inl ReferenceError
  | Some nd =>
      match parent nd with
      | None => inl ValueError
      | Some p =>
          match heap st !! p with
          | None => inl ReferenceError
          | Some pd =>
              match logposterior nd, logposterior pd with
              | Some l, Some lp => inr (random_draw nd <? exp_float (l - lp))
              | _, _ => inl ValueError
              end
          end
      end
  end.

(** Modelled from the spec: the two-level decision of
    [mcmc.MLMetropolisHastingsKernel]; it needs two levels. *)
Definition compute_two_level_decision (st : RStore) (node same_level_parent : ref)
  : PyExn + bool := inl ValueError.

(** Modelled from the spec: [BaseAcceptRateEstimator.update] of [mcmc.py]:
    exponential smoothing of the accept rate of the node's level. *)
Definition estimator_update (accepted : bool) (node : ref) : M RStore unit :=
  fun st =>
    match heap st !! node with
    | None => Raise ReferenceError st
    | Some nd =>
        let w := ext st in
        let smooth (a : float) := (1 - eta) * a + eta * (if accepted then 1 else 0) in
        Ok tt (with_ext (with_accept_rates (alter smooth (Z.to_nat (level nd)) (accept_rates w)) w)
                        st)
    end.

(** [l[i]] for the per-level lists [num_evaluations] and the accept rates. *)
Definition index {A : Type} (f : A -> PyVal) (l : list A) (i : Z) : PyExn + PyVal :=
  let j := (if i <? 0 then i + len l else i)%Z in
  if (j <? 0)%Z then inl IndexError
  else match nth_error l (Z.to_nat j) with
       | Some v => inr (f v)
       | None => inl IndexError
       end.

(** Modelled from the spec: the printing methods of [MTMLDALogger] in
    [logging.py]; each adds a line to the log. *)
Definition emit (line : string) : M World unit :=
  fun w => Ok tt (with_log (log w ++ [line])%list w).

(** Modelled from the spec: [Statistics.set_value] of [logging.py]. *)
Definition set_value (which : StatsId) (key : string) (v : PyVal) : M World unit :=
  fun w =>
    Ok tt
      match which with
      | RunStatistics =>
          mkWorld (capacity w) (in_flight w) (completions w) (evaluations w) (accept_rates w)
                  (now w) ((key, v) :: run_statistics w) (debug_statistics w) (log w) (exports w)
      | DebugStatistics =>
          mkWorld (capacity w) (in_flight w) (completions w) (evaluations w) (accept_rates w)
                  (now w) (run_statistics w) ((key, v) :: debug_statistics w) (log w) (exports w)
      end.

(** [time.time()]: a clock that advances at every reading. *)
Definition time_time (w : World) : float * World :=
  (now w,
   mkWorld (capacity w) (in_flight w) (completions w) (evaluations w) (accept_rates w)
           (now w + 1) (run_statistics w) (debug_statistics w) (log w) (exports w)).

(** Modelled from the spec: [MLTreeVisualizer.export_to_dot] of [mltree.py];
    it numbers the exported trees. *)
Definition export_to_dot (h : Heap) (root : ref) : M World PyVal :=
  fun w =>
    Ok (VInt (exports w))
       (mkWorld (capacity w) (in_flight w) (completions w) (evaluations w) (accept_rates w)
                (now w) (run_statistics w) (debug_statistics w) (log w) (exports w + 1)%Z).

(** [ThreadPoolExecutor(max_workers=n)] refuses a pool without workers. *)
Definition executor_enter (n : Z) : M RStore unit :=
  fun st => if (n <=? 0)%Z then Raise ValueError st else Ok tt st.

(** Leaving the [with] block waits for the evaluations in flight. *)
Definition executor_exit : M RStore unit :=
  fun st =>
    let w := ext st in
    Ok tt (with_ext (with_jobs 0 [] (completions w) (evaluations w) w) st).

(** Modelled from the spec: the constructor of [jobhandling.JobHandler]: all
    workers idle, one evaluation counter per level. *)
Definition JobHandler_init (n : Z) : M RStore unit :=
  fun st =>
    let w := ext st in
    Ok tt (with_ext (with_jobs n [] (completions w) (map (fun _ => 0%Z) (accept_rates w)) w) st).

Definition collaborators : Collaborators Gen World := {|
  Sampling.np_uniform := uniform;
  Sampling.time_time := time_time;
  Sampling.executor_enter := executor_enter;
  Sampling.executor_exit := executor_exit;
  Sampling.JobHandler_init := JobHandler_init;
  Sampling.workers_available := workers_available;
  Sampling.submit_job := submit_job;
  Sampling.get_finished_jobs := get_finished_jobs;
  Sampling.num_evaluations := fun st i => index VInt (evaluations (ext st)) i;
  Sampling.expand_tree := expand_tree;
  Sampling.update_probability_reached := update_probability_reached;
  Sampling.update_descendants := update_descendants;
  Sampling.discard_rejected_nodes := discard_rejected_nodes;
  Sampling.compress_resolved_subchains := compress_resolved_subchains;
  Sampling.find_max_probability_node := find_max_probability_node;
  Sampling.check_if_node_is_available_for_decision := check_if_node_is_available_for_decision;
  Sampling.get_same_level_parent := get_same_level_parent;
  Sampling.get_unique_same_subchain_child := get_unique_same_subchain_child;
  Sampling.compute_single_level_decision := compute_single_level_decision;
  Sampling.compute_two_level_decision := compute_two_level_decision;
  Sampling.estimator_update := estimator_update;
  Sampling.get_acceptance_rate := fun st i => index VFloat (accept_rates (ext st)) i;
  Sampling.set_value := set_value;
  Sampling.print_log_header := emit "header";
  Sampling.log_run_statistics := emit "run statistics";
  Sampling.log_debug_statistics := fun info => emit info;
  Sampling.logger_exception := fun _ => emit "exception";
  Sampling.print_debug_new_samples := fun _ => emit "new samples";
  Sampling.print_debug_tree_export := fun _ => emit "tree export";
  Sampling.export_to_dot := export_to_dot
|}.

End Collaborators.

(** The store a sampler starts from: no node yet, three generator objects
    seeded as the settings say (the proposal's at reference 0, the tree
    modifier's at 1, the node-init one at 2), idle collaborators with the
    given completion schedule and initial accept-rate guesses. *)
Definition initial_store (setup : SamplerSetupSettings) (proposal_rng_seed : Z)
           (accept_rates_initial_guess : list float) (schedule : list (list ref)) : RStore :=
  mkStore []
          (fun i => match i with
                    | O => proposal_rng_seed
                    | S O => rng_seed_mltree setup
                    | _ => rng_seed_node_init setup
                    end)
          0%nat 1%nat 2%nat
          (mkWorld 0 [] schedule [] accept_rates_initial_guess 0 [] [] [] 0).

End Reference.

(** ** Concrete runs *)

Module Scenario.

Import Sampling.

(** A flat log-posterior: every proposal is accepted. *)
Definition flat (x : State) : float := 0%float.

Definition setup : SamplerSetupSettings :=
  {| num_levels := 1;
     subsampling_rates := [-1];
     max_tree_height := 5;
     underflow_threshold := (-1000)%float;
     rng_seed_mltree := 1;
     rng_seed_node_init := 2 |}.

Definition settings (n threads : Z) : SamplerRunSettings :=
  {| num_samples := n;
     initial_state := [0%float];
     num_threads := threads;
     print_interval := 1;
     tree_render_interval := 1 |}.

Definition world : Collaborators Reference.Gen Reference.World :=
  Reference.collaborators flat 0.5%float 0.125%float.

(** The store of a new sampler whose evaluations complete as [schedule]
    says. *)
Definition start (schedule : list (list ref)) : Store Reference.Gen Reference.World :=
  Reference.initial_store setup 4 [0.5%float] schedule.

(** The evaluations of nodes 0, 1 and 3 complete one per harvest, in this
    order and in the opposite one. *)
Definition in_order : list (list ref) := [[0%nat]; [1%nat]; [3%nat]].
Definition reversed : list (list ref) := [[3%nat]; [1%nat]; [0%nat]].

(** The state of [run] when the first extend-and-submit phase begins. *)
Definition before_first_phase (rs : SamplerRunSettings) (schedule : list (list ref))
  : Sigma Reference.Gen Reference.World :=
  let sg0 := snd (run_init world setup rs (start schedule)) in
  final sg0 (bind (on_store (executor_enter world (num_threads rs)))
                  (fun _ => on_store (JobHandler_init world (num_threads rs))) sg0).

(** The state after the first extend-and-submit phase. *)
Definition after_first_phase (rs : SamplerRunSettings) (schedule : list (list ref))
  : Sigma Reference.Gen Reference.World :=
  let sg := before_first_phase rs schedule in
  final sg (_extend_tree_and_launch_jobs world setup 20 (mltree_root sg) sg).

(** A path with a suffix in its final component. *)
Definition dotted_path : Utilities.Path := Utilities.mkPath "" ["results"; "chain.v2"].

(** [chain_save_path] of the settings file. *)
Definition chain_save_path : Utilities.Path :=
  Utilities.mkPath "" ["results_seissol_zihua_1D"; "chain"].

End Scenario.

(** ** The model server: [request_umbridge_server] of [utilities.py] *)

Module Server.

Local Open Scope py_scope.

(** The line feed inside ["Server available\n"]. *)
Definition nl : string := String (ascii_of_nat 10) "".

Section Request.

(** [ub.HTTPModel] objects, and what the constructor does at each attempt:
    it returns a model or raises. *)
Variable HTTPModel : Type.
Variable connect_at : string -> string -> nat -> PyExn + HTTPModel.

(** The number of constructor calls made, the seconds slept and the lines
    printed. *)
Record Net : Type := mkNet {
  attempts : nat;
  slept : Z;
  printed : list string
}.

Definition print (line : string) : M Net unit :=
  fun n => Ok tt (mkNet (attempts n) (slept n) (printed n ++ [line])%list).

(** [time.sleep(seconds)]. *)
Definition sleep (seconds : Z) : M Net unit :=
  fun n => Ok tt (mkNet (attempts n) (slept n + seconds) (printed n)).

(** [ub.HTTPModel(address, name)]. *)
Definition HTTPModel_init (address name : string) : M Net HTTPModel :=
  fun n =>
    let n' := mkNet (S (attempts n)) (slept n) (printed n) in
    match connect_at address name (attempts n) with
    | inr server => Ok server n'
    | inl e => Raise e n'
    end.

(** [request_umbridge_server]: the [while not server_available] loop; the
    bare [except:] catches every exception. *)
Fixpoint request_umbridge_server (fuel : nat) (process_id : Z) (address name : string)
  : M Net HTTPModel :=
  match fuel with
  | O => diverge
  | S fuel' =>
      attempt <-
        try_except
          ((if process_id =? 0
            then print ("Calling server " ++ name ++ " at " ++ address ++ "...")
            else ret tt) ;;
           ub_server <- HTTPModel_init address name ;;
           (if process_id =? 0 then print ("Server available" ++ nl) else ret tt) ;;
           ret (Some ub_server))
          (fun _ => sleep 10 ;; ret None) ;;
      match attempt with
      | Some ub_server => ret ub_server
      | None => request_umbridge_server fuel' process_id address name
      end
  end.

End Request.

End Server.

(** ** The postprocessing script: [process_cli_arguments] *)

Module Postprocessing.

(** [s.replace(a, b)] for one-character [a] and [b]. *)
Fixpoint replace (a b : ascii) (s : string) : string :=
  match s with
  | EmptyString => EmptyString
  | String c s' => String (if Ascii.eqb c a then b else c) (replace a b s')
  end.

(** [s.lstrip(c)] and [s.rstrip(c)] for a one-character set. *)
Fixpoint lstrip (c : ascii) (s : string) : string :=
  match s with
  | EmptyString => EmptyString
  | String x s' => if Ascii.eqb x c then lstrip c s' else s
  end.

Fixpoint rstrip (c : ascii) (s : string) : string :=
  match s with
  | EmptyString => EmptyString
  | String x s' =>
      match rstrip c s' with
      | EmptyString => if Ascii.eqb x c then EmptyString else String x EmptyString
      | r => String x r
      end
  end.

(** [s.strip(c)]. *)
Definition strip (c : ascii) (s : string) : string := lstrip c (rstrip c s).

(** [process_cli_arguments]: [application] is the required [--application]
    argument, [settings] the optional [--settings] one, whose default is
    ["settings"]. *)
Definition process_cli_arguments (application : string) (settings : option string) : string :=
  let settings := match settings with Some v => v | None => "settings" end in
  let application_dir := strip "." (replace "/" "." application) in
  application_dir ++ "." ++ settings.

End Postprocessing.

(** ** The settings of a parallel run: [general_settings.py] *)

Module GeneralSettings.

(** The values the settings files pass. *)
Inductive Arg : Type :=
| ANone
| AInt (z : Z)
| ABool (b : bool)
| APath (p : Utilities.Path).

(** A field of a dataclass: its name and its default, if it has one. *)
Definition Field : Type := string * option Arg.

(** The fields of [ParallelRunSettings], in the order of the class body. *)
Definition ParallelRunSettings_fields : list Field :=
  [("num_chains", None);
   ("chain_save_path", None);
   ("chain_load_path", Some ANone);
   ("rng_state_save_path", Some ANone);
   ("rng_state_load_path", Some ANone);
   ("overwrite_chain", Some (ABool true));
   ("overwrite_rng_states", Some (ABool true))].

Definition lookup_kw (key : string) (kwargs : list (string * Arg)) : option Arg :=
  match List.find (fun kv => String.eqb key (fst kv)) kwargs with
  | Some kv => Some (snd kv)
  | None => None
  end.

Definition is_field (fields : list Field) (key : string) : bool :=
  existsb (fun f => String.eqb key (fst f)) fields.

(** The value of one field: the keyword argument, else the default, else the
    argument is missing. *)
Definition bind_field (kwargs : list (string * Arg)) (f : Field) : option Arg :=
  match lookup_kw (fst f) kwargs with
  | Some v => Some v
  | None => snd f
  end.

Fixpoint bind_fields (kwargs : list (string * Arg)) (fields : list Field)
  : option (list (string * Arg)) :=
  match fields with
  | [] => Some []
  | f :: fields' =>
      match bind_field kwargs f, bind_fields kwargs fields' with
      | Some v, Some rest => Some ((fst f, v) :: rest)
      | _, _ => None
      end
  end.

(** The [__init__] a dataclass generates, called with keyword arguments: an
    unexpected keyword and a missing field without default are a
    [TypeError]. *)
Definition dataclass_init (fields : list Field) (kwargs : list (string * Arg))
  : PyExn + list (string * Arg) :=
  if forallb (fun kv => is_field fields (fst kv)) kwargs
  then match bind_fields kwargs fields with
       | Some values => inr values
       | None => inl (OtherError "TypeError")
       end
  else inl (OtherError "TypeError").

(** [ParallelRunSettings(...)], called with keyword arguments. *)
Definition ParallelRunSettings (kwargs : list (string * Arg)) : PyExn + list (string * Arg) :=
  dataclass_init ParallelRunSettings_fields kwargs.

(** The call in [seissol/zihua_1D/settings.py]. *)
Definition zihua_1D_parallel_run_settings : list (string * Arg) :=
  [("num_chains", AInt 4);
   ("chain_save_path", APath (Utilities.mkPath "" ["results_seissol_zihua_1D"; "chain"]));
   ("chain_load_path", ANone);
   ("node_save_path", APath (Utilities.mkPath "" ["results_seissol_zihua_1D"; "final_node"]));
   ("node_load_path", APath (Utilities.mkPath "" ["results_seissol_zihua_1D"; "final_node"]));
   ("rng_state_save_path", ANone);
   ("rng_state_load_path", ANone);
   ("overwrite_chain", ABool true);
   ("overwrite_node", ABool true);
   ("overwrite_rng_states", ABool true)].

End GeneralSettings.

(** ** Footprints *)

Module Footprint.

Import Sampling.

Section Footprint.

Context {G X : Type}.

(** The node [nd'] is [nd], or [nd] after [nd.parent = None]. *)
Definition kept_or_detached (nd nd' : MTNode) : Prop :=
  nd' = nd \/ nd' = with_parent None nd.

(** From [sg] to [sg'] the only writes to node objects were [parent = None]:
    the heap holds the same nodes, each as it was or detached, and the
    generator objects and the three attributes that point to them are as they
    were. *)
Definition only_detaches (sg sg' : Sigma G X) : Prop :=
  Forall2 kept_or_detached (heap (store sg)) (heap (store sg')) /\
  generators (store sg') = generators (store sg) /\
  get_rngs (store sg') = get_rngs (store sg).

(** The chain of [sg'] is the chain of [sg], or that chain with one entry
    appended. *)
Definition appends_at_most_one (sg sg' : Sigma G X) : Prop :=
  mcmc_chain sg' = mcmc_chain sg \/ exists x, mcmc_chain sg' = (mcmc_chain sg ++ [x])%list.

(** [c] leaves the chain as it is when it returns, and has appended at most
    one entry when it raises. *)
Definition appends_only_when_raising {A : Type} (c : M (Sigma G X) A) : Prop :=
  forall sg,
    match c sg with
    | Ok _ sg' => mcmc_chain sg' = mcmc_chain sg
    | Raise _ sg' => appends_at_most_one sg sg'
    | Diverge => True
    end.

End Footprint.

End Footprint.

(** ** Further concrete states *)

Module Edge.

Import Sampling.

(** Run settings with [print_interval = 0]. *)
Definition unprinted (n threads : Z) : SamplerRunSettings :=
  {| num_samples := n;
     initial_state := [0%float];
     num_threads := threads;
     print_interval := 0;
     tree_render_interval := 1 |}.

(** The state of the first iteration of [run] after the harvest phase. *)
Definition after_harvest (rs : SamplerRunSettings) (schedule : list (list ref))
  : Sigma Reference.Gen Reference.World :=
  let sg := Scenario.after_first_phase rs schedule in
  final sg (_update_tree_from_finished_jobs Scenario.world Scenario.setup (mltree_root sg) sg).

(** The state of the first iteration of [run] when the advance phase
    begins. *)
Definition before_propagate (rs : SamplerRunSettings) (schedule : list (list ref))
  : Sigma Reference.Gen Reference.World :=
  let sg := after_harvest rs schedule in
  final sg (bind (_compute_available_mcmc_decisions Scenario.world 20 (mltree_root sg))
                 (fun _ => on_store (compress_resolved_subchains Scenario.world (mltree_root sg)))
                 sg).

(** A tree search that reports every node as available for a decision that
    is neither a ground-level nor a two-level one; the other collaborators
    are those of the reference world. *)
Definition undecided : Collaborators Reference.Gen Reference.World :=
  let w := Scenario.world in
  {| np_uniform := np_uniform w;
     time_time := time_time w;
     executor_enter := executor_enter w;
     executor_exit := executor_exit w;
     JobHandler_init := JobHandler_init w;
     workers_available := workers_available w;
     submit_job := submit_job w;
     get_finished_jobs := get_finished_jobs w;
     num_evaluations := num_evaluations w;
     expand_tree := expand_tree w;
     update_probability_reached := update_probability_reached w;
     update_descendants := update_descendants w;
     discard_rejected_nodes := discard_rejected_nodes w;
     compress_resolved_subchains := compress_resolved_subchains w;
     find_max_probability_node := find_max_probability_node w;
     check_if_node_is_available_for_decision := fun _ _ => inr (true, false, false);
     get_same_level_parent := get_same_level_parent w;
     get_unique_same_subchain_child := get_unique_same_subchain_child w;
     compute_single_level_decision := compute_single_level_decision w;
     compute_two_level_decision := compute_two_level_decision w;
     estimator_update := estimator_update w;
     get_acceptance_rate := get_acceptance_rate w;
     set_value := set_value w;
     print_log_header := print_log_header w;
     log_run_statistics := log_run_statistics w;
     log_debug_statistics := log_debug_statistics w;
     logger_exception := logger_exception w;
     print_debug_new_samples := print_debug_new_samples w;
     print_debug_tree_export := print_debug_tree_export w;
     export_to_dot := export_to_dot w |}.

(** A server that refuses the first three connections. *)
Definition third_retry (address name : string) (attempt : nat) : PyExn + string :=
  if (attempt <? 3)%nat then inl (OtherError "ConnectionError") else inr (address ++ "/" ++ name).

(** A server that is never reached. *)
Definition unreachable (address name : string) (attempt : nat) : PyExn + string :=
  inl KeyboardInterrupt.

End Edge.

(** * Properties of the driver *)

Import Sampling.

(** ** Relations every exit of a computation respects *)

Section Respects.

Context {G X : Type}.
Variable R : Sigma G X -> Sigma G X -> Prop.
Context {R_preorder : PreOrder R}.

Lemma respects_ret {A : Type} (a : A) : respects R (ret a).
Proof. intros sg. simpl. reflexivity. Qed.

Lemma respects_raise {A : Type} (e : PyExn) : respects R (raise e : M (Sigma G X) A).
Proof. intros sg. simpl. reflexivity. Qed.

Lemma respects_diverge {A : Type} : respects R (diverge : M (Sigma G X) A).
Proof. intros sg. exact I. Qed.

Lemma respects_get : respects R get.
Proof. intros sg. simpl. reflexivity. Qed.

Lemma respects_get_chain : respects R get_chain.
Proof. intros sg. simpl. reflexivity. Qed.

Lemma respects_read {A : Type} (f : Sigma G X -> PyExn + A) : respects R (read f).
Proof. intros sg. unfold read. destruct (f sg); reflexivity. Qed.

Lemma respects_node_attr {A : Type} (f : MTNode -> A) (n : ref) : respects R (node_attr f n).
Proof. apply respects_read. Qed.

Lemma respects_bind {A B : Type} (c : M (Sigma G X) A) (k : A -> M (Sigma G X) B) :
  respects R c -> (forall a, respects R (k a)) -> respects R (bind c k).
Proof.
  intros Hc Hk sg. unfold bind. specialize (Hc sg).
  destruct (c sg) as [a s1 | e s1 | ]; auto.
  specialize (Hk a s1). destruct (k a s1); auto; etransitivity; eauto.
Qed.

Lemma respects_for_each {A : Type} (l : list A) (body : A -> M (Sigma G X) unit) :
  (forall a, respects R (body a)) -> respects R (for_each l body).
Proof.
  intros H. induction l as [| a l IH]; simpl.
  - apply respects_ret.
  - apply respects_bind; auto.
Qed.

Lemma respects_try_except {A : Type} (c : M (Sigma G X) A) (handler : PyExn -> M (Sigma G X) A) :
  respects R c -> (forall e, respects R (handler e)) -> respects R (try_except c handler).
Proof.
  intros Hc Hh sg. unfold try_except. specialize (Hc sg).
  destruct (c sg) as [a s1 | e s1 | ]; auto.
  specialize (Hh e s1). destruct (handler e s1); auto; etransitivity; eauto.
Qed.

Lemma respects_finally {A : Type} (c : M (Sigma G X) A) (fin : M (Sigma G X) unit) :
  respects R c -> respects R fin -> respects R (finally_ c fin).
Proof.
  intros Hc Hf sg. unfold finally_. specialize (Hc sg).
  destruct (c sg) as [a s1 | e s1 | ]; auto;
    specialize (Hf s1); destruct (fin s1); auto; etransitivity; eauto.
Qed.

Lemma respects_search {A : Type} (f : Store G X -> PyExn + A) : respects R (search f).
Proof.
  intros sg. unfold search, on_store, read. destruct sg as [st c r]. simpl.
  destruct (f st); reflexivity.
Qed.

Lemma respects_logging {R_ext : ExtBlind R} {A : Type} (c : M X A) : respects R (logging c).
Proof.
  intros sg. unfold logging, on_store, on_ext. destruct (c (ext (store sg))); auto; apply ext_blind.
Qed.

Lemma respects_on_store {R_store : StoreBlind R} {A : Type} (c : M (Store G X) A) :
  respects R (on_store c).
Proof. intros sg. unfold on_store. destruct (c (store sg)); auto; apply store_blind. Qed.

Lemma respects_node_set {R_store : StoreBlind R} (upd : ref -> Heap -> Heap) (n : ref) :
  respects R (node_set upd n).
Proof.
  intros sg. unfold node_set. destruct (heap (store sg) !! n); [apply store_blind | reflexivity].
Qed.

Lemma respects_set_mltree_root {R_store : StoreBlind R} (r : ref) :
  respects R (set_mltree_root r).
Proof. intros sg. apply store_blind. Qed.

End Respects.

Create HintDb respects.

#[global] Hint Resolve respects_ret respects_raise respects_diverge respects_get respects_get_chain
  respects_read respects_node_attr respects_search respects_logging respects_on_store
  respects_node_set respects_set_mltree_root : respects.

(** Decomposes a computation along its binds, loops, tests and matches. *)
Ltac respects_step :=
  match goal with
  | |- PreOrder _ => exact _
  | |- ExtBlind _ => exact _
  | |- StoreBlind _ => exact _
  | |- respects _ (bind _ _) => apply respects_bind; [ .. | intros ]
  | |- respects _ (for_each _ _) => apply respects_for_each; [ .. | intros ]
  | |- respects _ (try_except _ _) => apply respects_try_except; [ .. | intros ]
  | |- respects _ (finally_ _ _) => apply respects_finally
  | |- respects _ (if ?b then _ else _) => destruct b
  | |- respects _ (match ?x with _ => _ end) => destruct x
  | |- respects _ _ => solve [auto with respects typeclass_instances]
  end.

Ltac respects_tac := repeat respects_step.

Section Relations.

Context {G X : Type}.

#[global] Instance extends_preorder : PreOrder (extends (G:=G) (X:=X)).
Proof.
  split.
  - intros sg. exists []. symmetry. apply app_nil_r.
  - intros a b c [l1 H1] [l2 H2]. exists (l1 ++ l2)%list.
    rewrite H2, H1. symmetry. apply app_assoc.
Qed.

#[global] Instance extends_store_blind : StoreBlind (extends (G:=G) (X:=X)).
Proof. intros sg st r. exists []. symmetry. apply app_nil_r. Qed.

#[global] Instance extends_ext_blind : ExtBlind (extends (G:=G) (X:=X)).
Proof. intros sg x. exists []. symmetry. apply app_nil_r. Qed.

#[global] Instance same_chain_preorder : PreOrder (same_chain (G:=G) (X:=X)).
Proof. split; unfold same_chain; [intros sg; reflexivity | intros a b c; congruence]. Qed.

#[global] Instance same_chain_store_blind : StoreBlind (same_chain (G:=G) (X:=X)).
Proof. intros sg st r. reflexivity. Qed.

#[global] Instance same_chain_ext_blind : ExtBlind (same_chain (G:=G) (X:=X)).
Proof. intros sg x. reflexivity. Qed.

#[global] Instance same_tree_preorder : PreOrder (same_tree (G:=G) (X:=X)).
Proof.
  split; unfold same_tree.
  - intros sg. split; reflexivity.
  - intros a b c [H1 H2] [H3 H4]. split; congruence.
Qed.

#[global] Instance same_tree_ext_blind : ExtBlind (same_tree (G:=G) (X:=X)).
Proof. intros sg x. split; reflexivity. Qed.

Lemma extends_len (a b : Sigma G X) : extends a b -> len (mcmc_chain a) <= len (mcmc_chain b).
Proof. intros [l H]. unfold len. rewrite H, length_app. lia. Qed.

Lemma respects_chain_append (x : State) : respects extends (chain_append (G:=G) (X:=X) x).
Proof. intros sg. now exists [x]. Qed.

End Relations.

#[global] Hint Resolve respects_chain_append : respects.

(** ** The phases of the driver *)

Section DriverFacts.

Context {G X : Type}.
Variable C : Collaborators G X.
Variable setup : SamplerSetupSettings.
Variable rs : SamplerRunSettings.
Variable start_time : float.

Local Open Scope py_scope.

(** Logging and export reach the collaborators' own state only. *)
Section Logging.

Variable R : Sigma G X -> Sigma G X -> Prop.
Context {R_preorder : PreOrder R} {R_ext : ExtBlind R}.

Lemma respects_export_debug_tree (root : ref) : respects R (_export_debug_tree C root).
Proof. unfold _export_debug_tree. respects_tac. Qed.

Lemma respects_log_debug_statistics (info : string) (node : ref) :
  respects R (_log_debug_statistics C info node).
Proof. unfold _log_debug_statistics, _update_debug_statistics. respects_tac. Qed.

Lemma respects_update_run_statistics : respects R (_update_run_statistics C setup start_time).
Proof. unfold _update_run_statistics. respects_tac. Qed.

Hint Resolve respects_update_run_statistics : respects.

Lemma respects_log_run_statistics : respects R (_log_run_statistics C setup rs start_time).
Proof. unfold _log_run_statistics. respects_tac. Qed.

Hint Resolve respects_export_debug_tree : respects.

Lemma respects_run_except (exc : PyExn) : respects R (run_except C exc).
Proof. unfold run_except. respects_tac. Qed.

End Logging.

#[local] Hint Resolve respects_export_debug_tree respects_log_debug_statistics
  respects_update_run_statistics respects_log_run_statistics respects_run_except : respects.

(** Extension, harvest and decisions work on the store, not on the chain. *)
Section Phases.

Variable R : Sigma G X -> Sigma G X -> Prop.
Context {R_preorder : PreOrder R} {R_ext : ExtBlind R} {R_store : StoreBlind R}.

Lemma respects_extend_tree_and_launch_jobs (fuel : nat) (root : ref) :
  respects R (_extend_tree_and_launch_jobs C setup fuel root).
Proof. induction fuel as [| fuel IH]; simpl; respects_tac. Qed.

Lemma respects_update_from_finished_job (root : ref) (job : float * ref) :
  respects R (update_from_finished_job C setup root job).
Proof. unfold update_from_finished_job. respects_tac. Qed.

Hint Resolve respects_update_from_finished_job : respects.

Lemma respects_update_tree_from_finished_jobs (root : ref) :
  respects R (_update_tree_from_finished_jobs C setup root).
Proof. unfold _update_tree_from_finished_jobs. respects_tac. Qed.

Lemma respects_decide_node (root : ref) (accepted : option bool) (node : ref) :
  respects R (decide_node C root accepted node).
Proof. unfold decide_node. respects_tac. Qed.

Hint Resolve respects_decide_node : respects.

Lemma respects_scan_level (root : ref) (level_children : list ref) (accepted : option bool) :
  respects R (scan_level C root accepted level_children).
Proof.
  revert accepted. induction level_children as [| n l IH]; intros accepted; simpl; respects_tac.
Qed.

Hint Resolve respects_scan_level : respects.

Lemma respects_scan_tree (root : ref) (groups : list (list ref)) (accepted : option bool) :
  respects R (scan_tree C root accepted groups).
Proof.
  revert accepted. induction groups as [| g l IH]; intros accepted; simpl; respects_tac.
Qed.

Hint Resolve respects_scan_tree : respects.

Lemma respects_decisions_loop (fuel : nat) (root : ref) (accepted : option bool) :
  respects R (decisions_loop C fuel root accepted).
Proof.
  revert accepted. induction fuel as [| fuel IH]; intros accepted; simpl; respects_tac.
Qed.

End Phases.

#[local] Hint Resolve respects_extend_tree_and_launch_jobs respects_update_tree_from_finished_jobs
  respects_decisions_loop : respects.

(** ** The chain only grows *)

Lemma grows_propagate_chain (fuel : nat) (root : ref) :
  grows (_propagate_chain C setup rs start_time fuel root).
Proof.
  unfold grows. revert root. induction fuel as [| fuel IH]; intros root; simpl; respects_tac.
Qed.

#[local] Hint Resolve grows_propagate_chain : respects.

Lemma grows_iteration (fuel : nat) : grows (iteration C setup rs start_time fuel).
Proof.
  unfold grows, iteration, _compute_available_mcmc_decisions. respects_tac.
  apply grows_propagate_chain.
Qed.

#[local] Hint Resolve grows_iteration : respects.

Lemma grows_main_loop (fuel iterations : nat) :
  grows (main_loop C setup rs start_time fuel iterations).
Proof.
  unfold grows. induction iterations as [| n IH]; simpl; respects_tac. apply grows_iteration.
Qed.

Lemma grows_run_try (fuel : nat) : grows (run_try C setup rs start_time fuel).
Proof. unfold grows, run_try. respects_tac. apply grows_main_loop. Qed.

(** ** What [run] returns *)

Lemma main_loop_ok_len (fuel iterations : nat) (sg sg' : Sigma G X) :
  main_loop C setup rs start_time fuel iterations sg = Ok tt sg' ->
  num_samples rs <= len (mcmc_chain sg').
Proof.
  revert sg. induction iterations as [| n IH]; intros sg; simpl; [discriminate |].
  unfold bind at 1. destruct (iteration C setup rs start_time fuel sg) as [[] s1 | |]; try discriminate.
  unfold bind, get_chain.
  destruct (len (mcmc_chain s1) >=? num_samples rs) eqn:E.
  - unfold ret. intros H. inversion H; subst. apply Z.geb_le in E. exact E.
  - apply IH.
Qed.

Lemma run_try_ok_len (fuel : nat) (sg sg' : Sigma G X) :
  run_try C setup rs start_time fuel sg = Ok tt sg' ->
  num_samples rs <= len (mcmc_chain sg').
Proof.
  unfold run_try. unfold bind at 1.
  destruct (on_store (executor_enter C (num_threads rs)) sg) as [[] s1 | |]; try discriminate.
  unfold finally_.
  match goal with |- context [match ?c s1 with _ => _ end] => destruct (c s1) as [[] s2 | e s2 |] eqn:Ebody end.
  - pose proof (respects_on_store same_chain (executor_exit C) s2) as Hk.
    destruct (on_store (executor_exit C) s2) as [[] s3 | |]; try discriminate.
    intros H. inversion H; subst. rewrite Hk.
    revert Ebody. unfold bind at 1.
    destruct (on_store (JobHandler_init C (num_threads rs)) s1) as [[] t1 | |]; try discriminate.
    unfold bind at 1. destruct (logging (print_log_header C) t1) as [[] t2 | |]; try discriminate.
    unfold bind at 1. destruct (_update_run_statistics C setup start_time t2) as [[] t3 | |]; try discriminate.
    unfold bind at 1. destruct (logging (log_run_statistics C) t3) as [[] t4 | |]; try discriminate.
    apply main_loop_ok_len.
  - destruct (on_store (executor_exit C) s2); discriminate.
  - discriminate.
Qed.

End DriverFacts.

Section RunFacts.

Context {G X : Type}.
Variable C : Collaborators G X.
Variable setup : SamplerSetupSettings.

Lemma run_init_chain (rs : SamplerRunSettings) (st : Store G X) :
  mcmc_chain (snd (run_init C setup rs st)) = [initial_state rs].
Proof.
  unfold run_init. destruct (time_time C (ext st)) as [t x].
  destruct (_init_mltree C setup (initial_state rs) (with_ext x st)) as [root st']. reflexivity.
Qed.

Lemma run_unfold (fuel : nat) (rs : SamplerRunSettings) (st : Store G X) :
  run C setup fuel rs st =
  match try_except (run_try C setup rs (fst (run_init C setup rs st)) fuel) (run_except C)
                   (snd (run_init C setup rs st)) with
  | Ok _ sg' => Ok (mcmc_chain sg') (store sg')
  | Raise _ sg' => Ok (mcmc_chain sg') (store sg')
  | Diverge => Diverge
  end.
Proof. unfold run. destruct (run_init C setup rs st) as [t sg]. reflexivity. Qed.

Lemma run_outcome (fuel : nat) (rs : SamplerRunSettings) (st : Store G X) :
  match run_try C setup rs (fst (run_init C setup rs st)) fuel (snd (run_init C setup rs st)) with
  | Ok _ sg1 => run C setup fuel rs st = Ok (mcmc_chain sg1) (store sg1)
  | Raise exc sg1 =>
      run C setup fuel rs st = Diverge \/
      exists st', run C setup fuel rs st = Ok (mcmc_chain sg1) st'
  | Diverge => run C setup fuel rs st = Diverge
  end.
Proof.
  rewrite run_unfold. unfold try_except.
  destruct (run_try C setup rs (fst (run_init C setup rs st)) fuel (snd (run_init C setup rs st)))
    as [[] sg1 | exc sg1 |]; [reflexivity | | reflexivity].
  pose proof (respects_run_except C same_chain exc sg1) as Hk.
  destruct (run_except C exc sg1) as [[] sg2 | e2 sg2 |];
    [right; exists (store sg2); now rewrite Hk | right; exists (store sg2); now rewrite Hk | now left].
Qed.


(** C9.  The chain [run] returns starts with [initial_state]: the chain is
    created as the one-element list of it before the [try] statement and is
    only appended to afterwards, on the normal and on the exceptional paths,
    so also when an exception ends the run before any decision. *)
Theorem run_chain_starts_with_initial_state
        (fuel : nat) (rs : SamplerRunSettings) (st : Store G X) :
  match run C setup fuel rs st with
  | Ok chain _ => exists rest, chain = initial_state rs :: rest
  | Raise _ _ => False
  | Diverge => True
  end.
Proof.
  rewrite run_unfold.
  pose proof (respects_try_except extends _ _
                (grows_run_try C setup rs (fst (run_init C setup rs st)) fuel)
                (respects_run_except C extends) (snd (run_init C setup rs st))) as H.
  destruct (try_except _ _ (snd (run_init C setup rs st))) as [[] sg' | e sg' |]; auto;
    destruct H as [l Hl]; rewrite run_init_chain in Hl; exists l; exact Hl.
Qed.

(** C1, as the code has it.  The chain only grows: every iteration of the main
    loop, however it ends, leaves the chain it found with entries appended.
    When the [try] block completes normally, [run] returns a chain of at
    least [num_samples] entries (and at least the initial one).  The length
    need not be [num_samples]: [_propagate_chain] does not look at
    [num_samples], the test is made once per iteration. *)
Theorem run_normal_completion_length
        (fuel : nat) (rs : SamplerRunSettings) (st : Store G X) (sg1 : Sigma G X)
        (Hnormal : run_try C setup rs (fst (run_init C setup rs st)) fuel
                           (snd (run_init C setup rs st)) = Ok tt sg1) :
  run C setup fuel rs st = Ok (mcmc_chain sg1) (store sg1) /\
  num_samples rs <= len (mcmc_chain sg1) /\
  1 <= len (mcmc_chain sg1) /\
  (forall start_time k, grows (iteration C setup rs start_time k)).
Proof.
  split; [| split; [| split]].
  - pose proof (run_outcome fuel rs st) as H. rewrite Hnormal in H. exact H.
  - eapply run_try_ok_len. exact Hnormal.
  - pose proof (grows_run_try C setup rs (fst (run_init C setup rs st)) fuel
                              (snd (run_init C setup rs st))) as H.
    rewrite Hnormal in H. apply extends_len in H. rewrite run_init_chain in H.
    unfold len in H at 1. simpl in H. lia.
  - intros start_time k. apply grows_iteration.
Qed.

End RunFacts.

(** ** Chain advancement *)

Section PropagateFacts.

Context {G X : Type}.
Variable C : Collaborators G X.
Variable setup : SamplerSetupSettings.
Variable rs : SamplerRunSettings.
Variable start_time : float.

Local Open Scope py_scope.

Lemma root_walk_one (st : Store G X) (root child : ref) (nd : MTNode) :
  get_unique_same_subchain_child C st root = inr (Some child) ->
  heap st !! root = Some nd ->
  root_walk C (heap st) root [state nd] (detach child (heap st)) child.
Proof. intros Hu Hn. eapply walk_step; eauto. apply walk_stop. Qed.

Lemma propagate_chain_walk (fuel : nat) (root : ref) (sg : Sigma G X) :
  match _propagate_chain C setup rs start_time fuel root sg with
  | Ok root' sg' =>
      exists appended,
        mcmc_chain sg' = (mcmc_chain sg ++ appended)%list /\
        root_walk C (heap (store sg)) root appended (heap (store sg')) root'
  | Raise _ sg' =>
      exists appended h' r',
        mcmc_chain sg' = (mcmc_chain sg ++ appended)%list /\
        root_walk C (heap (store sg)) root appended h' r'
  | Diverge => True
  end.
Proof.
  revert root sg. induction fuel as [| fuel IH]; intros root sg; simpl; [exact I |].
  destruct sg as [st ch r0]. unfold bind at 1. unfold search, on_store, read. simpl.
  destruct (get_unique_same_subchain_child C st root) as [e | [child |]] eqn:Eu; simpl.
  - exists [], (heap st), root. split; [now rewrite app_nil_r | apply walk_stop].
  - unfold bind at 1. unfold node_attr, read. simpl.
    destruct (heap st !! root) as [nd |] eqn:En; simpl.
    2:{ exists [], (heap st), root. split; [now rewrite app_nil_r | apply walk_stop]. }
    unfold bind at 1. unfold chain_append, modify. simpl.
    pose proof (root_walk_one st root child nd Eu En) as Hone.
    unfold bind at 1.
    pose proof (respects_log_run_statistics C setup rs start_time same_tree
                  (mkSigma st (ch ++ [state nd])%list r0)) as Hlog.
    destruct (_log_run_statistics C setup rs start_time (mkSigma st (ch ++ [state nd])%list r0))
      as [[] s2 | e s2 |]; [| | exact I].
    2:{ destruct Hlog as [_ Hc]. simpl in Hc. exists [state nd], (detach child (heap st)), child. split; [exact Hc | exact Hone]. }
    destruct Hlog as [Hh2 Hc2]. simpl in Hh2, Hc2.
    unfold bind at 1. unfold node_set. rewrite Hh2.
    destruct (heap st !! child) as [cd |] eqn:Ec.
    2:{ exists [state nd], (detach child (heap st)), child. split; [exact Hc2 | exact Hone]. }
    unfold bind at 1. unfold get_chain. unfold bind at 1.
    match goal with |- context [logging ?c ?s] =>
      pose proof (respects_logging same_tree c s) as Hp; destruct (logging c s) as [[] s4 | e s4 |]
    end; [| | exact I].
    2:{ destruct Hp as [_ Hc4]. simpl in Hc4. exists [state nd], (detach child (heap st)), child.
        split; [rewrite Hc4; exact Hc2 | exact Hone]. }
    destruct Hp as [Hh4 Hc4]. simpl in Hh4, Hc4.
    unfold bind at 1.
    pose proof (respects_export_debug_tree C same_tree child s4) as He.
    destruct (_export_debug_tree C child s4) as [[] s5 | e s5 |]; [| | exact I].
    2:{ destruct He as [_ Hc5]. exists [state nd], (detach child (heap st)), child.
        split; [rewrite Hc5, Hc4; exact Hc2 | exact Hone]. }
    destruct He as [Hh5 Hc5].
    specialize (IH child s5). rewrite Hh5, Hh4, Hc5, Hc4, Hc2 in IH.
    destruct (_propagate_chain C setup rs start_time fuel child s5) as [root' sg' | e sg' |];
      [| | exact I].
    + destruct IH as (appended & Hch & Hw). exists (state nd :: appended). split.
      * rewrite Hch, <- app_assoc. reflexivity.
      * apply walk_step with (st := st) (child := child); auto.
    + destruct IH as (appended & h' & r' & Hch & Hw). exists (state nd :: appended), h', r'. split.
      * rewrite Hch, <- app_assoc. reflexivity.
      * apply walk_step with (st := st) (child := child); auto.
  - exists []. split; [now rewrite app_nil_r | apply walk_stop].
Qed.

Lemma run_init_root (st : Store G X) :
  let sg0 := snd (run_init C setup rs st) in
  mcmc_chain sg0 = [initial_state rs] /\
  exists nd, heap (store sg0) !! mltree_root sg0 = Some nd /\
             state nd = initial_state rs /\ parent nd = None.
Proof.
  unfold run_init. destruct (time_time C (ext st)) as [t x].
  unfold _init_mltree. simpl.
  destruct (np_uniform C (generators st (rng_node_init st))) as [u g]. simpl.
  split; [reflexivity |]. eexists. split.
  - rewrite lookup_app_r by lia. rewrite Nat.sub_diag. reflexivity.
  - split; reflexivity.
Qed.

Lemma iteration_walk (fuel : nat) (sg sg' : Sigma G X) :
  iteration C setup rs start_time fuel sg = Ok tt sg' ->
  exists (mid : Sigma G X) appended,
    mcmc_chain mid = mcmc_chain sg /\
    mcmc_chain sg' = (mcmc_chain sg ++ appended)%list /\
    root_walk C (heap (store mid)) (mltree_root sg) appended
              (heap (store sg')) (mltree_root sg').
Proof.
  unfold iteration. unfold bind at 1, get.
  unfold bind at 1.
  pose proof (respects_extend_tree_and_launch_jobs C setup same_chain fuel (mltree_root sg) sg) as H1.
  destruct (_extend_tree_and_launch_jobs C setup fuel (mltree_root sg) sg) as [[] s1 | |];
    try discriminate.
  unfold bind at 1.
  pose proof (respects_update_tree_from_finished_jobs C setup same_chain (mltree_root sg) s1) as H2.
  destruct (_update_tree_from_finished_jobs C setup (mltree_root sg) s1) as [[] s2 | |];
    try discriminate.
  unfold bind at 1. unfold _compute_available_mcmc_decisions.
  pose proof (respects_decisions_loop C same_chain fuel (mltree_root sg) None s2) as H3.
  destruct (decisions_loop C fuel (mltree_root sg) None s2) as [[] s3 | |]; try discriminate.
  unfold bind at 1.
  pose proof (respects_on_store same_chain (compress_resolved_subchains C (mltree_root sg)) s3) as H4.
  destruct (on_store (compress_resolved_subchains C (mltree_root sg)) s3) as [[] s4 | |];
    try discriminate.
  unfold bind at 1.
  pose proof (propagate_chain_walk fuel (mltree_root sg) s4) as H5.
  destruct (_propagate_chain C setup rs start_time fuel (mltree_root sg) s4) as [root' s5 | |];
    try discriminate.
  unfold set_mltree_root, modify. intros H. inversion H; subst. simpl.
  destruct H5 as (appended & Hc & Hw). exists s4, appended.
  unfold same_chain in *. split; [congruence | split; [congruence | exact Hw]].
Qed.

(** C6.  Every entry [_propagate_chain] appends is the [state] of the node
    that is the root when it is appended: from root [root] the appended
    entries are the states along the walk that reads the root's state, detaches
    the unique accepted successor from the old root and goes on from the
    successor as the new root; this holds on the normal exit, which returns the
    last root, and when a collaborator raises on the way.  In an iteration of
    the main loop the walk starts at the root [run] holds and ends at the root
    it holds next, and nothing else is appended.  The one entry not appended
    there, the first, is the state of the root [run] starts with. *)
Theorem chain_entries_are_root_states (fuel : nat) (root : ref) (sg : Sigma G X) (st : Store G X) :
  match _propagate_chain C setup rs start_time fuel root sg with
  | Ok root' sg' =>
      exists appended,
        mcmc_chain sg' = (mcmc_chain sg ++ appended)%list /\
        root_walk C (heap (store sg)) root appended (heap (store sg')) root'
  | Raise _ sg' =>
      exists appended h' r',
        mcmc_chain sg' = (mcmc_chain sg ++ appended)%list /\
        root_walk C (heap (store sg)) root appended h' r'
  | Diverge => True
  end /\
  (forall sg',
      iteration C setup rs start_time fuel sg = Ok tt sg' ->
      exists (mid : Sigma G X) appended,
        mcmc_chain mid = mcmc_chain sg /\
        mcmc_chain sg' = (mcmc_chain sg ++ appended)%list /\
        root_walk C (heap (store mid)) (mltree_root sg) appended
                  (heap (store sg')) (mltree_root sg')) /\
  let sg0 := snd (run_init C setup rs st) in
  mcmc_chain sg0 = [initial_state rs] /\
  exists nd, heap (store sg0) !! mltree_root sg0 = Some nd /\
             state nd = initial_state rs /\ parent nd = None.
Proof.
  split; [apply propagate_chain_walk | split; [apply iteration_walk | apply run_init_root]].
Qed.

End PropagateFacts.

(** ** The tree *)

Section TreeFacts.

Lemma in_subtree_trans (h : Heap) (a b c : ref) :
  in_subtree h a b -> in_subtree h b c -> in_subtree h a c.
Proof.
  intros Hab Hbc. induction Hbc as [| n p nd Hn Hp _ IH]; [exact Hab |].
  eapply in_subtree_child; eauto.
Qed.

Lemma children_spec (h : Heap) (p c : ref) :
  In c (children h p) -> exists nd, h !! c = Some nd /\ parent nd = Some p.
Proof.
  unfold children. rewrite filter_In. intros [_ H]. unfold is_child_of in H.
  destruct (h !! c) as [nd |]; [| discriminate]. exists nd. split; [reflexivity |].
  destruct (parent nd) as [q |]; [| discriminate]. apply Nat.eqb_eq in H. now subst.
Qed.

Lemma level_groups_in_subtree (fuel : nat) (h : Heap) (group : list ref) (m : ref) :
  In m (concat (level_groups fuel h group)) -> exists g, In g group /\ in_subtree h g m.
Proof.
  revert group. induction fuel as [| fuel IH]; intros group; destruct group as [| g0 group];
    [intros [] | intros [] | intros [] |].
  change (level_groups (S fuel) h (g0 :: group))
    with ((g0 :: group) :: level_groups fuel h (flat_map (children h) (g0 :: group))).
  change (concat ((g0 :: group) :: level_groups fuel h (flat_map (children h) (g0 :: group))))
    with ((g0 :: group) ++ concat (level_groups fuel h (flat_map (children h) (g0 :: group))))%list.
  rewrite in_app_iff. intros [Hin | Hin].
  - exists m. split; [exact Hin | apply in_subtree_root].
  - apply IH in Hin. destruct Hin as (c & Hc & Hsub).
    apply in_flat_map in Hc. destruct Hc as (g & Hg & Hcg).
    apply children_spec in Hcg. destruct Hcg as (nd & Hnd & Hp).
    exists g. split; [exact Hg |].
    eapply in_subtree_trans; [| exact Hsub].
    eapply in_subtree_child; eauto. apply in_subtree_root.
Qed.

Lemma LevelOrderGroupIter_in_subtree (h : Heap) (root m : ref) :
  In m (concat (LevelOrderGroupIter h root)) -> in_subtree h root m.
Proof.
  intros H. apply level_groups_in_subtree in H. destruct H as (g & [Hg | []] & Hsub). now subst.
Qed.

(** Two parentless nodes have no node in common below them. *)
Lemma in_subtree_roots_disjoint (h : Heap) (r n m : ref) (rd nn : MTNode) :
  h !! r = Some rd -> parent rd = None ->
  h !! n = Some nn -> parent nn = None ->
  in_subtree h r m -> in_subtree h n m -> r = n.
Proof.
  intros Hr Hrp Hn Hnp Hrm. induction Hrm as [| m p md Hm Hmp _ IH]; intros Hnm.
  - inversion Hnm as [| ? p nd Hnd Hp _]; subst; [reflexivity | congruence].
  - inversion Hnm as [| ? p' nd Hnd Hp Hsub]; subst; [congruence |].
    apply IH. replace p with p' by congruence. exact Hsub.
Qed.

Lemma detach_lookup (h : Heap) (n : ref) (nd : MTNode) :
  h !! n = Some nd -> detach n h !! n = Some (with_parent None nd).
Proof. intros H. unfold detach. rewrite list_lookup_alter_eq, H. reflexivity. Qed.

Lemma detach_lookup_ne (h : Heap) (n m : ref) : n <> m -> detach n h !! m = h !! m.
Proof. intros H. unfold detach. now rewrite list_lookup_alter_ne. Qed.

(** After [node.parent = None] the tree under another parentless root holds
    neither the node nor anything below it. *)
Lemma detached_subtree_not_scanned (h : Heap) (root node m : ref) (nd rd : MTNode) :
  h !! node = Some nd -> h !! root = Some rd -> parent rd = None -> node <> root ->
  in_subtree (detach node h) node m ->
  ~ In m (concat (LevelOrderGroupIter (detach node h) root)).
Proof.
  intros Hn Hr Hrp Hne Hsub Hin. apply LevelOrderGroupIter_in_subtree in Hin.
  apply Hne. symmetry.
  apply (in_subtree_roots_disjoint (detach node h) root node m rd (with_parent None nd)); auto.
  - rewrite detach_lookup_ne by exact Hne. exact Hr.
  - apply detach_lookup. exact Hn.
Qed.

End TreeFacts.

(** ** Extension, harvest, generators *)

Section PhaseFacts.

Context {G X : Type}.
Variable C : Collaborators G X.
Variable setup : SamplerSetupSettings.

Local Open Scope py_scope.

Lemma bind_assoc {S A B D : Type} (c : M S A) (k : A -> M S B) (k' : B -> M S D) (s : S) :
  bind (bind c k) k' s = bind c (fun a => bind (k a) k') s.
Proof. unfold bind. destruct (c s); reflexivity. Qed.

Lemma set_logposterior_lookup (h : Heap) (n : ref) (r : float) (nd : MTNode) :
  h !! n = Some nd -> set_logposterior n r h !! n = Some (with_logposterior (Some r) nd).
Proof. intros H. unfold set_logposterior. rewrite list_lookup_alter_eq, H. reflexivity. Qed.


Lemma extend_exit (fuel : nat) (root : ref) (sg sg' : Sigma G X) :
  _extend_tree_and_launch_jobs C setup fuel root sg = Ok tt sg' ->
  max_tree_height setup < height (heap (store sg')) root \/
  exists sg_q,
    height (heap (store sg_q)) root <= max_tree_height setup /\
    on_store (workers_available C) sg_q = Ok false sg'.
Proof.
  revert sg. induction fuel as [| fuel IH]; intros sg; simpl; [discriminate |].
  unfold bind at 1, get.
  destruct (height (heap (store sg)) root <=? max_tree_height setup) eqn:Eh.
  - unfold bind at 1.
    destruct (on_store (workers_available C) sg) as [[|] s1 | |] eqn:Ew; try discriminate.
    + repeat (unfold bind at 1;
              match goal with
              | |- context [match ?c ?s with _ => _ end] =>
                  destruct (c s) as [? ? | |]; try discriminate
              end).
      apply IH.
    + unfold ret. intros H. inversion H; subst. right. exists sg. split; [| exact Ew].
      apply Z.leb_le. exact Eh.
  - unfold ret. intros H. inversion H; subst. left. apply Z.leb_gt in Eh. exact Eh.
Qed.

(** C4, as the code has it.  The extend-and-submit phase expands while the
    height of the tree is at most [max_tree_height] and a worker is idle.
    Above the bound it returns at once and leaves everything as it is; at or
    below the bound without an idle worker it stops after the query; at or
    below the bound with an idle worker it expands, also when the height
    equals the bound, so that the expansion takes the tree above it.  When
    the phase ends the tree is higher than the bound or the last query found
    no idle worker. *)
Theorem extend_expands_up_to_max_height (fuel : nat) (root : ref) (sg : Sigma G X) :
  (max_tree_height setup < height (heap (store sg)) root ->
   _extend_tree_and_launch_jobs C setup (S fuel) root sg = Ok tt sg) /\
  (forall st1,
      height (heap (store sg)) root <= max_tree_height setup ->
      workers_available C (store sg) = Ok false st1 ->
      _extend_tree_and_launch_jobs C setup (S fuel) root sg
      = Ok tt (mkSigma st1 (mcmc_chain sg) (mltree_root sg))) /\
  (forall st1,
      height (heap (store sg)) root <= max_tree_height setup ->
      workers_available C (store sg) = Ok true st1 ->
      _extend_tree_and_launch_jobs C setup (S fuel) root sg
      = (on_store (expand_tree C root) ;;
         on_store (update_probability_reached C root) ;;
         new_candidate <- search (fun st => find_max_probability_node C st root) ;;
         on_store (submit_job C new_candidate) ;;
         _log_debug_statistics C "submitted" new_candidate ;;
         _export_debug_tree C root ;;
         _extend_tree_and_launch_jobs C setup fuel root)
          (mkSigma st1 (mcmc_chain sg) (mltree_root sg))) /\
  (forall sg',
      _extend_tree_and_launch_jobs C setup fuel root sg = Ok tt sg' ->
      max_tree_height setup < height (heap (store sg')) root \/
      exists sg_q,
        height (heap (store sg_q)) root <= max_tree_height setup /\
        on_store (workers_available C) sg_q = Ok false sg').
Proof.
  split; [| split; [| split]].
  - intros H. simpl. unfold bind at 1, get. apply Z.leb_gt in H. rewrite H. reflexivity.
  - intros st1 H Hw. simpl. unfold bind at 1, get. apply Z.leb_le in H. rewrite H.
    unfold bind at 1, on_store. rewrite Hw. reflexivity.
  - intros st1 H Hw. simpl. unfold bind at 1, get. apply Z.leb_le in H. rewrite H.
    unfold bind at 1, on_store at 1. rewrite Hw. reflexivity.
  - intros sg'. apply extend_exit.
Qed.

(** C7.  [set_rngs(get_rngs())] changes nothing: the three attributes point
    to the generator objects they pointed to, the generator objects are as
    they were, the whole store is the same, and so is every run continued
    from it. *)
Theorem set_rngs_get_rngs_is_noop (st : Store G X) (fuel : nat) (rs : SamplerRunSettings) :
  set_rngs (get_rngs st) st = st /\
  get_rngs (set_rngs (get_rngs st) st) = get_rngs st /\
  generators (set_rngs (get_rngs st) st) = generators st /\
  run C setup fuel rs (set_rngs (get_rngs st) st) = run C setup fuel rs st.
Proof.
  assert (H : set_rngs (get_rngs st) st = st) by (destruct st; reflexivity).
  rewrite H. repeat split; reflexivity.
Qed.

End PhaseFacts.

(** * Properties of the utilities *)

Section UtilitiesFacts.

Import Utilities.

(** C10.  With a single integer as the configured seed the function returns
    the product of the seed and the process index: process 0 gets seed 0
    whatever the configured integer, and with the seed 0 every process gets
    0. *)
Theorem integer_seed_is_multiplied_by_process_id (seeds process_id : Z) :
  distribute_rng_seeds_to_processes (SeedInt seeds) process_id = inr (seeds * process_id) /\
  distribute_rng_seeds_to_processes (SeedInt seeds) 0 = inr 0 /\
  distribute_rng_seeds_to_processes (SeedInt 0) process_id = inr 0.
Proof.
  unfold distribute_rng_seeds_to_processes. repeat split; f_equal; lia.
Qed.

Lemma contains_app (c : ascii) (a b : string) :
  contains c (a ++ b) = contains c a || contains c b.
Proof.
  induction a as [| x a IH]; simpl; [reflexivity |]. rewrite IH. apply orb_assoc.
Qed.

Lemma string_of_uint_no_sep (d : Decimal.uint) :
  contains "/" (NilEmpty.string_of_uint d) = false.
Proof. induction d; simpl; auto. Qed.

Lemma str_no_sep (i : Z) : contains "/" (str i) = false.
Proof.
  unfold str, NilZero.string_of_int, NilZero.string_of_uint.
  destruct (Z.to_int i) as [d | d]; destruct d; simpl; auto using string_of_uint_no_sep.
Qed.

Lemma endswith_refl (s : string) : endswith s s = true.
Proof. destruct s; simpl; [reflexivity |]. now rewrite Ascii.eqb_refl, String.eqb_refl. Qed.

Lemma endswith_append (a b suf : string) : endswith b suf = true -> endswith (a ++ b) suf = true.
Proof.
  intros H. induction a as [| x a IH]; simpl; [exact H |]. rewrite IH. apply orb_true_r.
Qed.

Lemma app_not_empty (a : string) (c : ascii) (b : string) :
  String.eqb (a ++ String c b) "" = false.
Proof. destruct a; reflexivity. Qed.

Lemma parts_eqb_refl (l : list string) : parts_eqb l l = true.
Proof. induction l as [| x l IH]; simpl; [reflexivity |]. now rewrite String.eqb_refl. Qed.

Lemma Path_eqb_refl (p : Path) : Path_eqb p p = true.
Proof. unfold Path_eqb. now rewrite String.eqb_refl, parts_eqb_refl. Qed.

Lemma name_with_last (a : string) (l : list string) (x : string) :
  name (mkPath a (l ++ [x])) = x.
Proof. unfold name. simpl. apply last_last. Qed.

Lemma parent_with_last (a : string) (l : list string) (x : string) :
  parent (mkPath a (l ++ [x])) = mkPath a l.
Proof. unfold parent. simpl. now rewrite removelast_last. Qed.

(** The file [append_string_to_path] names for index [i] and extension
    [ext]. *)
Lemma append_index (path : Path) (i : Z) (ext : string) :
  name path <> "" -> contains "/" (name path) = false -> contains "/" ext = false ->
  append_string_to_path path (str i ++ ext)
  = inr (mkPath (anchor path) (removelast (parts path) ++ [name path ++ "_" ++ str i ++ ext])).
Proof.
  intros Hname Hsep Hext. unfold append_string_to_path, with_name.
  destruct (String.eqb (name path) "") eqn:E; [apply String.eqb_eq in E; contradiction |].
  rewrite !contains_app, Hsep, str_no_sep, Hext. simpl.
  rewrite app_not_empty.
  destruct (name path) as [| c s] eqn:En; [contradiction |]. simpl.
  destruct (Ascii.eqb c "."); [| reflexivity]. simpl.
  rewrite app_not_empty. reflexivity.
Qed.

Section FilesFacts.

Variable Obj : Type.

Lemma read_after_write (p : Path) (b : Blob Obj) (fs fs' : FS Obj) :
  write_file Obj p b fs = Ok tt fs' -> read_file Obj fs' p = Some b.
Proof.
  unfold write_file. destruct (is_dir Obj fs (parent p)); [| discriminate].
  intros H. inversion H; subst. unfold read_file. simpl. now rewrite Path_eqb_refl.
Qed.

Lemma save_then_load_npy (i : Z) (path : Path) (trace : list (list float)) (ok : bool)
      (fs fs' : FS Obj) :
  name path <> "" -> contains "/" (name path) = false ->
  save_chain Obj i path trace ok fs = Ok tt fs' ->
  read_file Obj fs'
            (mkPath (anchor path) (removelast (parts path) ++ [name path ++ "_" ++ str i ++ ".npy"]))
  = Some (Npy Obj trace) /\
  load_chain Obj i path fs' = Ok trace fs'.
Proof.
  intros Hname Hsep. unfold save_chain, load_chain, lift.
  rewrite (append_index path i ".npy" Hname Hsep eq_refl).
  unfold bind at 1. destruct (os_makedirs Obj (parent path) ok fs) as [[] fs1 | |]; try discriminate.
  unfold bind, read, np_save. rewrite name_with_last.
  rewrite (endswith_append (name path) _ ".npy")
    by (apply (endswith_append "_"), endswith_append, endswith_refl).
  intros H. apply read_after_write in H. split; [exact H |].
  unfold np_load. now rewrite H.
Qed.

Lemma save_then_load_pkl (i : Z) (path : Path) (obj : Obj) (ok : bool) (fs fs' : FS Obj) :
  name path <> "" -> contains "/" (name path) = false ->
  save_node Obj i path obj ok fs = Ok tt fs' ->
  read_file Obj fs'
            (mkPath (anchor path) (removelast (parts path) ++ [name path ++ "_" ++ str i ++ ".pkl"]))
  = Some (Pickle Obj obj) /\
  load_node Obj i path fs' = Ok obj fs'.
Proof.
  intros Hname Hsep. unfold save_node, load_node, lift.
  rewrite (append_index path i ".pkl" Hname Hsep eq_refl).
  unfold bind at 1. destruct (os_makedirs Obj (parent path) ok fs) as [[] fs1 | |]; try discriminate.
  unfold bind, read, pickle_dump.
  intros H. apply read_after_write in H. split; [exact H |].
  unfold pickle_load. now rewrite H.
Qed.

(** C8, as the code has it.  For every process index [i] and every path
    whose final component [name] is not empty, the chain file is the sibling
    of the path named [name_i.npy] and the node and generator snapshots are
    the sibling named [name_i.pkl]; a successful save writes that file and
    the matching load reads it back.  [name] is the whole final component:
    it is the path's stem exactly when the component carries no suffix. *)
Theorem artifacts_keyed_by_name_and_index
        (i : Z) (path : Path)
        (Hname : name path <> "") (Hsep : contains "/" (name path) = false) :
  let npy := mkPath (anchor path) (removelast (parts path) ++ [name path ++ "_" ++ str i ++ ".npy"]) in
  let pkl := mkPath (anchor path) (removelast (parts path) ++ [name path ++ "_" ++ str i ++ ".pkl"]) in
  append_string_to_path path (str i ++ ".npy") = inr npy /\
  append_string_to_path path (str i ++ ".pkl") = inr pkl /\
  name npy = name path ++ "_" ++ str i ++ ".npy" /\ parent npy = parent path /\
  name pkl = name path ++ "_" ++ str i ++ ".pkl" /\ parent pkl = parent path /\
  (stem path = name path ->
   name npy = stem path ++ "_" ++ str i ++ ".npy" /\
   name pkl = stem path ++ "_" ++ str i ++ ".pkl") /\
  (forall trace ok fs fs',
      save_chain Obj i path trace ok fs = Ok tt fs' ->
      read_file Obj fs' npy = Some (Npy Obj trace) /\ load_chain Obj i path fs' = Ok trace fs') /\
  (forall node ok fs fs',
      save_node Obj i path node ok fs = Ok tt fs' ->
      read_file Obj fs' pkl = Some (Pickle Obj node) /\ load_node Obj i path fs' = Ok node fs') /\
  (forall rng_states ok fs fs',
      save_rng_states Obj i path rng_states ok fs = Ok tt fs' ->
      read_file Obj fs' pkl = Some (Pickle Obj rng_states) /\
      load_rng_states Obj i path fs' = Ok rng_states fs').
Proof.
  intros npy pkl.
  assert (Hn : name npy = name path ++ "_" ++ str i ++ ".npy") by apply name_with_last.
  assert (Hp : name pkl = name path ++ "_" ++ str i ++ ".pkl") by apply name_with_last.
  repeat split.
  - apply append_index; auto.
  - apply append_index; auto.
  - exact Hn.
  - apply parent_with_last.
  - exact Hp.
  - apply parent_with_last.
  - rewrite Hn. congruence.
  - rewrite Hp. congruence.
  - eapply save_then_load_npy; eauto.
  - eapply save_then_load_npy; eauto.
  - eapply save_then_load_pkl; eauto.
  - eapply save_then_load_pkl; eauto.
  - eapply (save_then_load_pkl i path rng_states ok fs fs'); eauto.
  - eapply (save_then_load_pkl i path rng_states ok fs fs'); eauto.
Qed.

End FilesFacts.

End UtilitiesFacts.

(** * Order of the harvested results *)

Section HarvestOrder.

Context {G X : Type}.
Variable C : Collaborators G X.
Variable setup : SamplerSetupSettings.

(** [update_descendants] rewrites the node heap by [ud] and nothing else. *)
Variable ud : ref -> Heap -> Heap.
Hypothesis update_descendants_heap :
  forall n st, update_descendants C n st = Ok tt (with_heap (ud n (heap st)) st).

Local Open Scope py_scope.

Lemma harvest_step_heap (root : ref) (job : float * ref) (sg sg' : Sigma G X) :
  update_from_finished_job C setup root job sg = Ok tt sg' ->
  heap (store sg') = job_effect setup ud job (heap (store sg)) /\
  mcmc_chain sg' = mcmc_chain sg.
Proof.
  destruct job as [result node]. unfold update_from_finished_job, job_effect. simpl.
  destruct (PrimFloat.ltb result (underflow_threshold setup)).
  - rewrite bind_assoc. unfold bind at 1. unfold node_set at 1.
    destruct (heap (store sg) !! node); [| discriminate].
    match goal with |- ?c ?s = _ -> _ =>
      assert (Hq : respects same_tree c)
    end.
    { apply respects_bind; [exact _ | apply respects_log_debug_statistics; exact _ |].
      intros _. apply respects_export_debug_tree; exact _. }
    match goal with |- ?c ?s = _ -> _ => specialize (Hq s) end.
    intros H. rewrite H in Hq. exact Hq.
  - rewrite bind_assoc. unfold bind at 1. unfold node_set at 1.
    destruct (heap (store sg) !! node); [| discriminate].
    rewrite bind_assoc. unfold bind at 1. unfold on_store at 1. rewrite update_descendants_heap.
    match goal with |- ?c ?s = _ -> _ =>
      assert (Hq : respects same_tree c)
    end.
    { apply respects_bind; [exact _ | apply respects_log_debug_statistics; exact _ |].
      intros _. apply respects_export_debug_tree; exact _. }
    match goal with |- ?c ?s = _ -> _ => specialize (Hq s) end.
    intros H. rewrite H in Hq. exact Hq.
Qed.

Lemma harvest_loop_heap (root : ref) (batch : list (float * ref)) (sg sg' : Sigma G X) :
  for_each batch (update_from_finished_job C setup root) sg = Ok tt sg' ->
  heap (store sg') = fold_left (fun h job => job_effect setup ud job h) batch (heap (store sg)) /\
  mcmc_chain sg' = mcmc_chain sg.
Proof.
  revert sg. induction batch as [| job batch IH]; intros sg; simpl.
  - unfold ret. intros H. inversion H; subst. split; reflexivity.
  - unfold bind at 1.
    destruct (update_from_finished_job C setup root job sg) as [[] s1 | |] eqn:E; try discriminate.
    apply harvest_step_heap in E. destruct E as [Hh Hc]. intros H. apply IH in H.
    destruct H as [Hh' Hc']. rewrite Hh', Hc', Hh, Hc. split; reflexivity.
Qed.

(** [update_descendants] of one node commutes with what the harvest does to
    another. *)
Hypothesis ud_set_logposterior :
  forall n m r h, n <> m -> ud n (set_logposterior m r h) = set_logposterior m r (ud n h).
Hypothesis ud_detach :
  forall n m h, n <> m -> ud n (detach m h) = detach m (ud n h).
Hypothesis ud_ud :
  forall n m h, n <> m -> ud n (ud m h) = ud m (ud n h).

Lemma job_effect_comm (j1 j2 : float * ref) (h : Heap) :
  snd j1 <> snd j2 ->
  job_effect setup ud j1 (job_effect setup ud j2 h)
  = job_effect setup ud j2 (job_effect setup ud j1 h).
Proof.
  destruct j1 as [r1 n1], j2 as [r2 n2]. simpl. intros Hne. unfold job_effect. simpl.
  assert (Hne' : n2 <> n1) by congruence.
  destruct (PrimFloat.ltb r1 (underflow_threshold setup)),
           (PrimFloat.ltb r2 (underflow_threshold setup)).
  - unfold detach. apply list_alter_alter_ne. exact Hne.
  - rewrite <- (ud_detach n2 n1) by exact Hne'. f_equal.
    unfold detach, set_logposterior. apply list_alter_alter_ne. exact Hne.
  - rewrite <- (ud_detach n1 n2) by exact Hne. f_equal.
    unfold detach, set_logposterior. apply list_alter_alter_ne. exact Hne.
  - rewrite <- (ud_set_logposterior n2 n1) by exact Hne'.
    rewrite <- (ud_set_logposterior n1 n2) by exact Hne.
    rewrite (ud_ud n1 n2) by exact Hne. do 2 f_equal.
    unfold set_logposterior. apply list_alter_alter_ne. exact Hne.
Qed.

Lemma harvest_effects_permute (b1 b2 : list (float * ref)) :
  Permutation b1 b2 -> List.NoDup (map snd b1) ->
  forall h,
    fold_left (fun h job => job_effect setup ud job h) b1 h
    = fold_left (fun h job => job_effect setup ud job h) b2 h.
Proof.
  intros Hperm. induction Hperm as [| x l l' Hp IH | x y l | l l' l'' Hp1 IH1 Hp2 IH2];
    intros Hnd h; simpl.
  - reflexivity.
  - apply IH. simpl in Hnd. now inversion Hnd.
  - f_equal. apply job_effect_comm. simpl in Hnd. inversion Hnd as [| ? ? Hnotin _]; subst.
    intros Heq. apply Hnotin. left. exact Heq.
  - rewrite IH1 by exact Hnd. apply IH2.
    eapply Permutation_NoDup; [| exact Hnd]. apply Permutation_map. exact Hp1.
Qed.


End HarvestOrder.

(** * Runs of the reference world *)

Section ConcreteRuns.

Import Scenario.

(** Two samples requested, four workers, the evaluation of node 3 harvested
    before those of nodes 1 and 0: the [try] block ends normally and the chain
    [run] returns has three entries.  The third harvest resolves two decisions
    at once and [_propagate_chain] appends for both. *)
Lemma run_overshoots_num_samples :
  let rs := settings 2 4 in
  let st := start reversed in
  completes (run_try world setup rs (fst (run_init world setup rs st)) 20
                     (snd (run_init world setup rs st))) = true /\
  option_map len (returned (run world setup 20 rs st)) = Some 3 /\
  num_samples rs = 2.
Proof. vm_compute. repeat split. Qed.

Lemma run_normal_completion_length_witness :
  let rs := settings 2 4 in
  let st := start reversed in
  let sg1 := final (snd (run_init world setup rs st))
                   (run_try world setup rs (fst (run_init world setup rs st)) 20
                            (snd (run_init world setup rs st))) in
  run_try world setup rs (fst (run_init world setup rs st)) 20 (snd (run_init world setup rs st))
  = Ok tt sg1 /\
  (run world setup 20 rs st = Ok (mcmc_chain sg1) (store sg1) /\
   num_samples rs <= len (mcmc_chain sg1) /\
   1 <= len (mcmc_chain sg1) /\
   (forall start_time k, grows (iteration world setup rs start_time k))).
Proof.
  intros rs st sg1. split.
  - vm_compute. reflexivity.
  - apply (run_normal_completion_length world setup 20 rs st sg1). vm_compute. reflexivity.
Defined.



(** [max_tree_height = 5] and eight workers: the first extend-and-submit
    phase expands at heights 0 to 5 and leaves a tree of height 6. *)
Lemma extend_exceeds_max_tree_height :
  let rs := settings 2 8 in
  let sg := before_first_phase rs [] in
  completes (_extend_tree_and_launch_jobs world setup 20 (mltree_root sg) sg) = true /\
  height (heap (store (after_first_phase rs []))) (mltree_root (after_first_phase rs [])) = 6 /\
  max_tree_height setup = 5.
Proof. vm_compute. repeat split. Qed.

Lemma extend_expands_up_to_max_height_witness :
  let sg := after_first_phase (settings 2 8) [] in
  max_tree_height setup < height (heap (store sg)) (mltree_root sg) /\
  _extend_tree_and_launch_jobs world setup 20 (mltree_root sg) sg = Ok tt sg.
Proof.
  intros sg.
  assert (H : max_tree_height setup < height (heap (store sg)) (mltree_root sg))
    by (vm_compute; reflexivity).
  split; [exact H |].
  exact (proj1 (extend_expands_up_to_max_height world setup 19 (mltree_root sg) sg) H).
Defined.

Lemma chain_entries_are_root_states_witness :
  let rs := settings 2 4 in
  let sg := before_first_phase rs [] in
  let sg' := final sg (iteration world setup rs 0%float 20 sg) in
  iteration world setup rs 0%float 20 sg = Ok tt sg' /\
  exists (mid : Sigma Reference.Gen Reference.World) appended,
    mcmc_chain mid = mcmc_chain sg /\
    mcmc_chain sg' = (mcmc_chain sg ++ appended)%list /\
    root_walk world (heap (store mid)) (mltree_root sg) appended
              (heap (store sg')) (mltree_root sg').
Proof.
  intros rs sg sg'.
  assert (H : iteration world setup rs 0%float 20 sg = Ok tt sg') by (vm_compute; reflexivity).
  split; [exact H |].
  exact (proj1 (proj2 (chain_entries_are_root_states world setup rs 0%float 20 0%nat sg (start [])))
               sg' H).
Defined.


(** A save path whose final component has a suffix: the stem is [chain], the
    chain of process 3 goes to [chain.v2_3.npy] and no [chain_3.npy] is
    written. *)
Lemma stem_does_not_key_the_artifacts :
  let fs := final (Utilities.mkFS unit [] [])
                  (Utilities.save_chain unit 3 dotted_path [[0%float]] true
                                        (Utilities.mkFS unit [] [])) in
  Utilities.stem dotted_path = "chain" /\
  Utilities.append_string_to_path dotted_path (str 3 ++ ".npy")
  = inr (Utilities.mkPath "" ["results"; "chain.v2_3.npy"]) /\
  Utilities.read_file unit fs (Utilities.mkPath "" ["results"; "chain.v2_3.npy"])
  = Some (Utilities.Npy unit [[0%float]]) /\
  Utilities.read_file unit fs
    (Utilities.mkPath "" ["results"; Utilities.stem dotted_path ++ "_" ++ str 3 ++ ".npy"])
  = None.
Proof. vm_compute. repeat split. Qed.

Lemma artifacts_keyed_by_name_and_index_witness :
  (Utilities.name chain_save_path <> "" /\
   Utilities.contains "/" (Utilities.name chain_save_path) = false) /\
  Utilities.append_string_to_path chain_save_path (str 3 ++ ".npy")
  = inr (Utilities.mkPath "" ["results_seissol_zihua_1D"; "chain_3.npy"]) /\
  Utilities.append_string_to_path chain_save_path (str 3 ++ ".pkl")
  = inr (Utilities.mkPath "" ["results_seissol_zihua_1D"; "chain_3.pkl"]).
Proof.
  assert (Hname : Utilities.name chain_save_path <> "") by (vm_compute; discriminate).
  assert (Hsep : Utilities.contains "/" (Utilities.name chain_save_path) = false)
    by (vm_compute; reflexivity).
  split; [split; assumption |].
  pose proof (artifacts_keyed_by_name_and_index unit 3 chain_save_path Hname Hsep) as H.
  cbv zeta in H. destruct H as (Hnpy & Hpkl & _). split; [exact Hnpy | exact Hpkl].
Defined.

(** A pool without workers: [ThreadPoolExecutor] raises before the main loop
    starts, and [run] returns the initial state alone. *)
Example run_returns_initial_state_after_early_exception :
  returned (run world setup 20 (settings 2 0) (start [])) = Some [[0%float]].
Proof. vm_compute. reflexivity. Qed.

End ConcreteRuns.

(** * Further properties of the driver *)

Section Inversion.

Context {St : Type}.

Lemma bind_ok_inv {A B : Type} (c : M St A) (k : A -> M St B) (s s' : St) (b : B) :
  bind c k s = Ok b s' -> exists a s1, c s = Ok a s1 /\ k a s1 = Ok b s'.
Proof. unfold bind. destruct (c s) as [a s1 | |]; [eauto | discriminate | discriminate]. Qed.

Lemma ret_ok_inv {A : Type} (a b : A) (s s' : St) : ret a s = Ok b s' -> a = b /\ s = s'.
Proof. unfold ret. intros H. inversion H. auto. Qed.

End Inversion.

Section DecisionFacts.

Context {G X : Type}.
Variable C : Collaborators G X.

Local Open Scope py_scope.

Lemma sigma_eta (sg : Sigma G X) : mkSigma (store sg) (mcmc_chain sg) (mltree_root sg) = sg.
Proof. destruct sg; reflexivity. Qed.

Lemma search_run {A : Type} (f : Store G X -> PyExn + A) (sg : Sigma G X) :
  search f sg = match f (store sg) with inr a => Ok a sg | inl e => Raise e sg end.
Proof. unfold search, on_store, read. destruct (f (store sg)); now rewrite sigma_eta. Qed.

Lemma decide_node_false (root : ref) (accepted : option bool) (node : ref)
      (sg sg' : Sigma G X) (r : bool * option bool) :
  decide_node C root accepted node sg = Ok r sg' -> fst r = false ->
  sg' = sg /\ snd r = accepted /\
  exists g t, check_if_node_is_available_for_decision C (store sg) node = inr (false, g, t).
Proof.
  unfold decide_node. unfold bind at 1. rewrite search_run.
  destruct (check_if_node_is_available_for_decision C (store sg) node) as [e | [[a g] t]];
    [discriminate |].
  destruct a.
  - intros H Hf. exfalso.
    apply bind_ok_inv in H. destruct H as ([a |] & s1 & _ & H); [| discriminate].
    apply bind_ok_inv in H. destruct H as (? & s2 & _ & H).
    apply bind_ok_inv in H. destruct H as (? & s3 & _ & H).
    apply bind_ok_inv in H. destruct H as (? & s4 & _ & H).
    apply ret_ok_inv in H. destruct H as [H _]. subst r. discriminate.
  - intros H _. apply ret_ok_inv in H. destruct H as [H1 H2]. subst. simpl. eauto.
Qed.

Lemma scan_level_false (root : ref) (level_children : list ref) (accepted : option bool)
      (sg sg' : Sigma G X) (r : bool * option bool) :
  scan_level C root accepted level_children sg = Ok r sg' -> fst r = false ->
  sg' = sg /\ snd r = accepted /\
  Forall (fun node => exists g t,
              check_if_node_is_available_for_decision C (store sg) node = inr (false, g, t))
         level_children.
Proof.
  revert accepted. induction level_children as [| node rest IH]; intros accepted; simpl.
  - intros H _. apply ret_ok_inv in H. destruct H as [H1 H2]. subst. auto.
  - intros H Hf. apply bind_ok_inv in H. destruct H as (r1 & s1 & Hd & H).
    destruct (fst r1) eqn:E1.
    + apply ret_ok_inv in H. destruct H as [H _]. subst. congruence.
    + apply decide_node_false in Hd; [| exact E1]. destruct Hd as (-> & Hacc & Hun).
      rewrite Hacc in H. apply IH in H; [| exact Hf]. destruct H as (-> & Hr & Hall). auto.
Qed.

Lemma scan_tree_false (root : ref) (groups : list (list ref)) (accepted : option bool)
      (sg sg' : Sigma G X) (r : bool * option bool) :
  scan_tree C root accepted groups sg = Ok r sg' -> fst r = false ->
  sg' = sg /\ snd r = accepted /\
  Forall (fun node => exists g t,
              check_if_node_is_available_for_decision C (store sg) node = inr (false, g, t))
         (concat groups).
Proof.
  revert accepted. induction groups as [| level_children rest IH]; intros accepted; simpl.
  - intros H _. apply ret_ok_inv in H. destruct H as [H1 H2]. subst. auto.
  - intros H Hf. apply bind_ok_inv in H. destruct H as (r1 & s1 & Hd & H).
    destruct (fst r1) eqn:E1.
    + apply ret_ok_inv in H. destruct H as [H _]. subst. congruence.
    + apply scan_level_false in Hd; [| exact E1]. destruct Hd as (-> & Hacc & Hun).
      rewrite Hacc in H. apply IH in H; [| exact Hf]. destruct H as (-> & Hr & Hall).
      split; [reflexivity | split; [exact Hr |]]. apply Forall_app. auto.
Qed.

Lemma decisions_loop_exit (fuel : nat) (root : ref) (accepted : option bool)
      (sg sg' : Sigma G X) :
  decisions_loop C fuel root accepted sg = Ok tt sg' ->
  Forall (fun node => exists g t,
              check_if_node_is_available_for_decision C (store sg') node = inr (false, g, t))
         (concat (LevelOrderGroupIter (heap (store sg')) root)).
Proof.
  revert accepted sg. induction fuel as [| fuel IH]; intros accepted sg; simpl; [discriminate |].
  unfold bind at 1, get. intros H. apply bind_ok_inv in H. destruct H as (r & s1 & Hs & H).
  destruct (fst r) eqn:E.
  - eapply IH. exact H.
  - apply ret_ok_inv in H. destruct H as [_ <-].
    apply scan_tree_false in Hs; [| exact E]. destruct Hs as (-> & _ & Hall). exact Hall.
Qed.

(** X1.  When [_compute_available_mcmc_decisions] returns, its last pass over
    the tree, level by level from the root, found no node available for a
    decision: in the state it leaves, the search reports every node of the
    tree under the root as not available.  The chain is as it was. *)
Theorem decisions_end_with_a_pass_without_decision
        (fuel : nat) (root : ref) (sg sg' : Sigma G X)
        (Hdone : _compute_available_mcmc_decisions C fuel root sg = Ok tt sg') :
  Forall (fun node => exists g t,
              check_if_node_is_available_for_decision C (store sg') node = inr (false, g, t))
         (concat (LevelOrderGroupIter (heap (store sg')) root)) /\
  mcmc_chain sg' = mcmc_chain sg.
Proof.
  split.
  - eapply decisions_loop_exit. exact Hdone.
  - pose proof (respects_decisions_loop C same_chain fuel root None sg) as H.
    unfold _compute_available_mcmc_decisions in Hdone. rewrite Hdone in H. exact H.
Qed.

Lemma LevelOrderGroupIter_head (h : Heap) (root : ref) (nd : MTNode) :
  h !! root = Some nd -> exists rest, LevelOrderGroupIter h root = [root] :: rest.
Proof.
  intros H. unfold LevelOrderGroupIter. destruct h as [| x h]; [discriminate |].
  simpl. eauto.
Qed.

(** X2.  The local variable [accepted] of
    [_compute_available_mcmc_decisions] is assigned only in the branches of
    the two kinds of decision.  When the search reports the root, the first
    node visited, as available for a decision of neither kind, the call ends
    with [UnboundLocalError] and has changed nothing; when it reports that for
    a node after an earlier decision of the same call, the estimator and the
    tree are updated with the outcome of that earlier decision. *)
Theorem decision_of_neither_kind_reads_accepted
        (fuel : nat) (root : ref) (sg : Sigma G X) (nd : MTNode)
        (Hroot : heap (store sg) !! root = Some nd)
        (Hflags : check_if_node_is_available_for_decision C (store sg) root
                  = inr (true, false, false)) :
  _compute_available_mcmc_decisions C (S fuel) root sg = Raise UnboundLocalError sg /\
  (forall earlier,
      decide_node C root (Some earlier) root sg
      = (on_store (estimator_update C earlier root) ;;
         on_store (discard_rejected_nodes C root earlier) ;;
         _export_debug_tree C root ;;
         ret (true, Some earlier)) sg).
Proof.
  split.
  - assert (Hd : decide_node C root None root sg = Raise UnboundLocalError sg).
    { unfold decide_node. unfold bind at 1. rewrite search_run, Hflags. reflexivity. }
    unfold _compute_available_mcmc_decisions. simpl. unfold bind at 1, get.
    destruct (LevelOrderGroupIter_head _ _ _ Hroot) as [rest ->]. simpl.
    unfold bind. rewrite Hd. reflexivity.
  - intros earlier. unfold decide_node. unfold bind at 1. rewrite search_run, Hflags.
    reflexivity.
Qed.

End DecisionFacts.

(** ** What the advance phase writes *)

Section FootprintFacts.

Import Footprint.

Context {G X : Type}.

#[global] Instance kept_or_detached_preorder : PreOrder kept_or_detached.
Proof.
  split.
  - intros nd. now left.
  - intros a b c [-> | ->] [-> | ->]; [now left | now right | now right | now right].
Qed.

#[global] Instance only_detaches_preorder : PreOrder (only_detaches (G:=G) (X:=X)).
Proof.
  split.
  - intros sg. repeat split; reflexivity.
  - intros a b c (H1 & H2 & H3) (H4 & H5 & H6).
    split; [etransitivity; eauto | split; congruence].
Qed.

#[global] Instance only_detaches_ext_blind : ExtBlind (only_detaches (G:=G) (X:=X)).
Proof. intros sg x. repeat split; reflexivity. Qed.

Lemma only_detaches_chain_append (x : State) :
  respects only_detaches (chain_append (G:=G) (X:=X) x).
Proof. intros sg. repeat split; reflexivity. Qed.

Lemma only_detaches_detach (n : ref) :
  respects only_detaches (node_set (G:=G) (X:=X) detach n).
Proof.
  intros sg. unfold node_set. destruct (heap (store sg) !! n) eqn:E; [| reflexivity].
  split; [| split; reflexivity]. simpl. unfold detach.
  apply Forall2_same_length_lookup_2; [now rewrite length_alter |].
  intros i x y Hx Hy. destruct (decide (i = n)) as [-> | Hne].
  - rewrite list_lookup_alter_eq, Hx in Hy. inversion Hy. now right.
  - rewrite list_lookup_alter_ne in Hy by congruence. left. congruence.
Qed.

Lemma only_detaches_parentless (sg sg' : Sigma G X) (n : ref) (nd : MTNode) :
  only_detaches sg sg' -> heap (store sg) !! n = Some nd -> parent nd = None ->
  exists nd', heap (store sg') !! n = Some nd' /\ parent nd' = None.
Proof.
  intros (H & _) Hn Hp. destruct (Forall2_lookup_l _ _ _ _ _ H Hn) as (nd' & Hn' & [-> | ->]).
  - eauto.
  - eexists. split; [exact Hn' | reflexivity].
Qed.

End FootprintFacts.

#[global] Hint Resolve only_detaches_chain_append only_detaches_detach : respects.

Section AdvanceFacts.

Import Footprint.

Context {G X : Type}.
Variable C : Collaborators G X.
Variable setup : SamplerSetupSettings.
Variable rs : SamplerRunSettings.
Variable start_time : float.

Local Open Scope py_scope.

#[local] Hint Resolve respects_export_debug_tree respects_log_run_statistics : respects.

Lemma propagate_chain_only_detaches (fuel : nat) (root : ref) :
  respects only_detaches (_propagate_chain C setup rs start_time fuel root).
Proof.
  revert root. induction fuel as [| fuel IH]; intros root; simpl; respects_tac.
Qed.

Lemma propagate_chain_exit (fuel : nat) (root root' : ref) (sg sg' : Sigma G X) :
  _propagate_chain C setup rs start_time fuel root sg = Ok root' sg' ->
  get_unique_same_subchain_child C (store sg') root' = inr None /\
  (root' = root \/
   exists nd, heap (store sg') !! root' = Some nd /\ parent nd = None).
Proof.
  revert root sg. induction fuel as [| fuel IH]; intros root sg; simpl; [discriminate |].
  unfold bind at 1. rewrite search_run.
  destruct (get_unique_same_subchain_child C (store sg) root) as [e | [child |]] eqn:Eu;
    [discriminate | |].
  - intros H.
    apply bind_ok_inv in H. destruct H as (x & s1 & _ & H).
    apply bind_ok_inv in H. destruct H as ([] & s2 & _ & H).
    apply bind_ok_inv in H. destruct H as ([] & s3 & _ & H).
    apply bind_ok_inv in H. destruct H as ([] & s4 & Hset & H).
    apply bind_ok_inv in H. destruct H as (c & s5 & Hget & H).
    apply bind_ok_inv in H. destruct H as ([] & s6 & Hlog & H).
    apply bind_ok_inv in H. destruct H as ([] & s7 & Hexp & H).
    pose proof (propagate_chain_only_detaches fuel child s7) as Hrest. rewrite H in Hrest.
    apply IH in H. destruct H as [Hnone Hroot]. split; [exact Hnone |]. right.
    destruct Hroot as [-> | Hroot]; [| exact Hroot].
    assert (Hc : exists cd, heap (store s7) !! child = Some cd /\ parent cd = None).
    { unfold node_set in Hset.
      destruct (heap (store s3) !! child) as [cd |] eqn:Ec; [| discriminate].
      inversion Hset; subst s4. unfold get_chain in Hget. inversion Hget; subst s5 c.
      pose proof (respects_logging same_tree (print_debug_new_samples C (len (mcmc_chain s3)))
                    (mkSigma (with_heap (detach child (heap (store s3))) (store s3))
                             (mcmc_chain s3) (mltree_root s3))) as H6.
      rewrite Hlog in H6. destruct H6 as [H6 _].
      pose proof (respects_export_debug_tree C same_tree child s6) as H7.
      rewrite Hexp in H7. destruct H7 as [H7 _].
      exists (with_parent None cd). split; [| reflexivity].
      rewrite H7, H6. simpl. apply detach_lookup. exact Ec. }
    destruct Hc as (cd & Hcd & Hp). eapply only_detaches_parentless; eauto.
  - intros H. apply ret_ok_inv in H. destruct H as [<- <-]. split; [exact Eu | now left].
Qed.

(** X3.  All that [_propagate_chain] writes to the tree is [parent = None]:
    on every exit the heap holds the nodes it held, each as it was or detached
    (states, draws, levels and log-posteriors untouched), and the generators
    are as they were.  When it returns, the search finds no unique successor of
    the root it returns, and that root is the root it was given or a node
    without parent. *)
Theorem propagate_chain_only_detaches_successors (fuel : nat) (root : ref) (sg : Sigma G X) :
  match _propagate_chain C setup rs start_time fuel root sg with
  | Ok root' sg' =>
      only_detaches sg sg' /\
      get_unique_same_subchain_child C (store sg') root' = inr None /\
      (root' = root \/
       exists nd, heap (store sg') !! root' = Some nd /\ parent nd = None)
  | Raise _ sg' => only_detaches sg sg'
  | Diverge => True
  end.
Proof.
  pose proof (propagate_chain_only_detaches fuel root sg) as H.
  destruct (_propagate_chain C setup rs start_time fuel root sg) as [root' sg' | e sg' |] eqn:E;
    [| exact H | exact I].
  split; [exact H |]. eapply propagate_chain_exit. exact E.
Qed.

(** X4.  [_log_run_statistics] computes [len(mcmc_chain) % print_interval]
    before anything else, so with [print_interval = 0] it raises
    [ZeroDivisionError] whatever the chain.  The first advance of the chain
    then ends there: the state of the root has been appended, the successor is
    still attached to it, and nothing was logged. *)
Theorem zero_print_interval_stops_the_advance
        (fuel : nat) (root child : ref) (sg : Sigma G X) (nd : MTNode)
        (Hzero : print_interval rs = 0)
        (Hchild : get_unique_same_subchain_child C (store sg) root = inr (Some child))
        (Hroot : heap (store sg) !! root = Some nd) :
  (forall sg1, _log_run_statistics C setup rs start_time sg1 = Raise ZeroDivisionError sg1) /\
  _propagate_chain C setup rs start_time (S fuel) root sg
  = Raise ZeroDivisionError
          (mkSigma (store sg) (mcmc_chain sg ++ [state nd])%list (mltree_root sg)).
Proof.
  assert (Hlog : forall sg1,
             _log_run_statistics C setup rs start_time sg1 = Raise ZeroDivisionError sg1).
  { intros sg1. unfold _log_run_statistics. unfold bind, get_chain. rewrite Hzero. reflexivity. }
  split; [exact Hlog |].
  simpl. unfold bind at 1. rewrite search_run, Hchild.
  unfold bind at 1. unfold node_attr, read. rewrite Hroot.
  unfold bind at 1. unfold chain_append, modify.
  unfold bind at 1. rewrite Hlog. reflexivity.
Qed.

#[local] Hint Resolve respects_extend_tree_and_launch_jobs respects_update_tree_from_finished_jobs
  respects_decisions_loop : respects.

(** X5.  The test that leaves the main loop stands at the end of its body:
    when the chain already has [num_samples] entries, as the one-element chain
    has for [num_samples <= 1], the loop still makes one full pass through the
    four phases, and exactly one. *)
Theorem main_loop_runs_once_when_chain_is_long_enough
        (fuel iterations : nat) (sg : Sigma G X)
        (Hlen : num_samples rs <= len (mcmc_chain sg)) :
  main_loop C setup rs start_time fuel (S iterations) sg
  = iteration C setup rs start_time fuel sg.
Proof.
  simpl. unfold bind at 1.
  pose proof (grows_iteration C setup rs start_time fuel sg) as H.
  destruct (iteration C setup rs start_time fuel sg) as [[] s1 | e s1 |]; try reflexivity.
  apply extends_len in H. unfold bind, get_chain.
  destruct (len (mcmc_chain s1) >=? num_samples rs) eqn:E; [reflexivity |].
  rewrite Z.geb_leb in E. apply Z.leb_gt in E. lia.
Qed.

(** X6.  When the executor cannot be created, the handler of [run] gets the
    exception in the state the constructor left: no job handler was created,
    nothing was logged before, no phase ran.  [run] returns the chain that
    holds the initial state alone, unless the handler never returns. *)
Theorem run_returns_initial_state_when_executor_fails
        (fuel : nat) (st st1 : Store G X) (e : PyExn)
        (Hfail : executor_enter C (num_threads rs) (store (snd (run_init C setup rs st)))
                 = Raise e st1) :
  run C setup fuel rs st
  = match run_except C e (mkSigma st1 [initial_state rs]
                                  (mltree_root (snd (run_init C setup rs st)))) with
    | Ok _ sg' => Ok [initial_state rs] (store sg')
    | Raise _ sg' => Ok [initial_state rs] (store sg')
    | Diverge => Diverge
    end.
Proof.
  rewrite run_unfold. unfold try_except, run_try. unfold bind at 1. unfold on_store at 1.
  rewrite Hfail. rewrite run_init_chain.
  match goal with |- context [run_except C e ?s] =>
    pose proof (respects_run_except C same_chain e s) as H; destruct (run_except C e s)
  end; try reflexivity; unfold same_chain in H; simpl in H; now rewrite H.
Qed.

End AdvanceFacts.

(** ** A run that cannot print *)

Section ZeroPrintInterval.

Import Footprint.

Context {G X : Type}.
Variable C : Collaborators G X.
Variable setup : SamplerSetupSettings.
Variable rs : SamplerRunSettings.
Variable start_time : float.
Hypothesis print_interval_zero : print_interval rs = 0.

Local Open Scope py_scope.

Lemma same_chain_appends_only {A : Type} (c : M (Sigma G X) A) :
  respects same_chain c -> appends_only_when_raising c.
Proof.
  intros H sg. specialize (H sg). destruct (c sg); auto. now left.
Qed.

Lemma appends_only_bind {A B : Type} (c : M (Sigma G X) A) (k : A -> M (Sigma G X) B) :
  appends_only_when_raising c -> (forall a, appends_only_when_raising (k a)) ->
  appends_only_when_raising (bind c k).
Proof.
  intros Hc Hk sg. unfold bind. specialize (Hc sg).
  destruct (c sg) as [a s1 | e s1 |]; auto.
  specialize (Hk a s1). destruct (k a s1) as [b s2 | e s2 |]; auto; [congruence |].
  unfold appends_at_most_one in *. now rewrite <- Hc.
Qed.

Lemma appends_only_finally {A : Type} (c : M (Sigma G X) A) (fin : M (Sigma G X) unit) :
  appends_only_when_raising c -> respects same_chain fin ->
  appends_only_when_raising (finally_ c fin).
Proof.
  intros Hc Hf sg. unfold finally_. specialize (Hc sg).
  destruct (c sg) as [a s1 | e s1 |]; auto; specialize (Hf s1); unfold same_chain in Hf;
    destruct (fin s1) as [[] s2 | e2 s2 |]; auto; unfold appends_at_most_one in *;
    rewrite ?Hf; auto; now rewrite Hc.
Qed.

Lemma propagate_chain_appends_only (fuel : nat) (root : ref) :
  appends_only_when_raising (_propagate_chain C setup rs start_time fuel root).
Proof.
  intros sg. destruct fuel as [| fuel]; simpl; [exact I |].
  unfold bind at 1. rewrite search_run.
  destruct (get_unique_same_subchain_child C (store sg) root) as [e | [child |]];
    [now left | | reflexivity].
  unfold bind at 1. unfold node_attr, read.
  destruct (heap (store sg) !! root) as [nd |]; [| now left].
  unfold bind at 1. unfold chain_append, modify.
  unfold bind at 1. unfold _log_run_statistics. unfold bind at 1. unfold get_chain.
  rewrite print_interval_zero. simpl. right. eauto.
Qed.

Lemma iteration_appends_only (fuel : nat) :
  appends_only_when_raising (iteration C setup rs start_time fuel).
Proof.
  unfold iteration.
  apply appends_only_bind; [apply same_chain_appends_only, respects_get; exact _ | intros sg].
  apply appends_only_bind;
    [apply same_chain_appends_only, respects_extend_tree_and_launch_jobs; exact _ | intros _].
  apply appends_only_bind;
    [apply same_chain_appends_only, respects_update_tree_from_finished_jobs; exact _ | intros _].
  apply appends_only_bind;
    [apply same_chain_appends_only, respects_decisions_loop; exact _ | intros _].
  apply appends_only_bind;
    [apply same_chain_appends_only, respects_on_store; exact _ | intros _].
  apply appends_only_bind; [apply propagate_chain_appends_only | intros root'].
  apply same_chain_appends_only, respects_set_mltree_root; exact _.
Qed.

Lemma main_loop_appends_only (fuel iterations : nat) :
  appends_only_when_raising (main_loop C setup rs start_time fuel iterations).
Proof.
  induction iterations as [| n IH]; simpl; [intros sg; exact I |].
  apply appends_only_bind; [apply iteration_appends_only | intros _].
  apply appends_only_bind; [apply same_chain_appends_only, respects_get_chain; exact _ | intros c].
  destruct (len c >=? num_samples rs); [| exact IH].
  apply same_chain_appends_only, respects_ret; exact _.
Qed.

Lemma run_try_appends_only (fuel : nat) :
  appends_only_when_raising (run_try C setup rs start_time fuel).
Proof.
  unfold run_try.
  apply appends_only_bind; [apply same_chain_appends_only, respects_on_store; exact _ | intros _].
  apply appends_only_finally; [| apply respects_on_store; exact _].
  apply appends_only_bind; [apply same_chain_appends_only, respects_on_store; exact _ | intros _].
  apply appends_only_bind; [apply same_chain_appends_only, respects_logging; exact _ | intros _].
  apply appends_only_bind;
    [apply same_chain_appends_only, respects_update_run_statistics; exact _ | intros _].
  apply appends_only_bind; [apply same_chain_appends_only, respects_logging; exact _ | intros _].
  apply main_loop_appends_only.
Qed.

End ZeroPrintInterval.

Section ZeroPrintIntervalRun.

Import Footprint.

Context {G X : Type}.
Variable C : Collaborators G X.
Variable setup : SamplerSetupSettings.

(** X7.  With [print_interval = 0] the first sample that is appended ends
    the run: whatever [num_samples] is, [run] returns the initial state alone
    or followed by one more entry, and for [num_samples >= 2] the [try] block
    never ends normally. *)
Theorem zero_print_interval_caps_the_chain
        (fuel : nat) (rs : SamplerRunSettings) (st : Store G X)
        (Hzero : print_interval rs = 0) :
  match run C setup fuel rs st with
  | Ok chain _ => chain = [initial_state rs] \/ exists x, chain = [initial_state rs; x]
  | Raise _ _ => False
  | Diverge => True
  end /\
  (2 <= num_samples rs ->
   forall sg1, run_try C setup rs (fst (run_init C setup rs st)) fuel
                       (snd (run_init C setup rs st)) <> Ok tt sg1).
Proof.
  pose proof (run_try_appends_only C setup rs (fst (run_init C setup rs st)) Hzero fuel
                (snd (run_init C setup rs st))) as Htry.
  split.
  - rewrite run_unfold. unfold try_except.
    destruct (run_try C setup rs (fst (run_init C setup rs st)) fuel
                      (snd (run_init C setup rs st))) as [[] sg1 | e sg1 |]; [| | exact I].
    + left. rewrite Htry. apply run_init_chain.
    + pose proof (respects_run_except C same_chain e sg1) as Hh. unfold same_chain in Hh.
      unfold appends_at_most_one in Htry. rewrite run_init_chain in Htry.
      destruct (run_except C e sg1) as [[] sg2 | e2 sg2 |]; [| | exact I]; rewrite Hh;
        (destruct Htry as [-> | [x ->]]; [now left | right; now exists x]).
  - intros Hn sg1 Hok. rewrite Hok in Htry. apply run_try_ok_len in Hok.
    rewrite Htry, run_init_chain in Hok. unfold len in Hok. simpl in Hok. lia.
Qed.

End ZeroPrintIntervalRun.

(** * Further properties of the utilities *)

Section SeedFacts.

Import Utilities.

Lemma getitem_nat {A : Type} (l : list A) (k : nat) :
  getitem l (Z.of_nat k)
  = match nth_error l k with Some v => inr v | None => inl IndexError end.
Proof.
  unfold getitem. destruct (Z.of_nat k <? 0) eqn:E; [apply Z.ltb_lt in E; lia |].
  rewrite E. now rewrite Nat2Z.id.
Qed.

Lemma getitem_all {A : Type} (pre l : list A) :
  map (fun k => getitem (pre ++ l) (Z.of_nat k)) (seq (length pre) (length l)) = map inr l.
Proof.
  revert pre. induction l as [| x l IH]; intros pre; simpl; [reflexivity |]. f_equal.
  - rewrite getitem_nat, nth_error_app2 by lia. now rewrite Nat.sub_diag.
  - specialize (IH (pre ++ [x])%list). rewrite length_app, <- app_assoc in IH. simpl in IH.
    replace (length pre + 1)%nat with (S (length pre)) in IH by lia. exact IH.
Qed.

(** X8.  With a list of seeds, processes [0] to [len(seeds) - 1] get the
    entries of the list in order; a process index from [len(seeds)] on, or
    below [-len(seeds)], is an [IndexError]; a negative index down to
    [-len(seeds)] counts from the end of the list. *)
Theorem listed_seeds_are_dealt_in_order (seeds : list Z) :
  map (distribute_rng_seeds_to_processes (SeedList seeds)) (range (len seeds))
  = map inr seeds /\
  (forall process_id,
      len seeds <= process_id \/ process_id < - len seeds ->
      distribute_rng_seeds_to_processes (SeedList seeds) process_id = inl IndexError) /\
  (forall process_id,
      - len seeds <= process_id < 0 ->
      distribute_rng_seeds_to_processes (SeedList seeds) process_id
      = distribute_rng_seeds_to_processes (SeedList seeds) (process_id + len seeds)).
Proof.
  split; [| split].
  - unfold range, len. rewrite Nat2Z.id, map_map. exact (getitem_all [] seeds).
  - intros i H. simpl. unfold getitem. unfold len in *. destruct (i <? 0) eqn:E.
    + apply Z.ltb_lt in E. destruct (i + Z.of_nat (length seeds) <? 0) eqn:E'; [reflexivity |].
      apply Z.ltb_ge in E'. lia.
    + rewrite E. apply Z.ltb_ge in E.
      destruct (nth_error seeds (Z.to_nat i)) eqn:En; [| reflexivity].
      assert (Hn : nth_error seeds (Z.to_nat i) <> None) by congruence.
      apply nth_error_Some in Hn. lia.
  - intros i H. simpl. unfold getitem. unfold len in *.
    destruct (i <? 0) eqn:E; [| apply Z.ltb_ge in E; lia].
    destruct (i + Z.of_nat (length seeds) <? 0) eqn:E'; [apply Z.ltb_lt in E'; lia |].
    rewrite E'. reflexivity.
Qed.

(** X9.  With an integer seed the processes get pairwise different seeds
    exactly when the configured seed is not 0. *)
Theorem integer_seed_separates_processes (seed : Z) :
  (forall i j,
      i <> j ->
      distribute_rng_seeds_to_processes (SeedInt seed) i
      <> distribute_rng_seeds_to_processes (SeedInt seed) j)
  <-> seed <> 0.
Proof.
  split.
  - intros H ->. apply (H 0 1); [discriminate | reflexivity].
  - intros Hs i j Hij H. simpl in H. inversion H. nia.
Qed.

End SeedFacts.

Section NameFacts.

Import Utilities.

Lemma length_append (a b : string) :
  String.length (a ++ b) = (String.length a + String.length b)%nat.
Proof. induction a as [| x a IH]; simpl; [reflexivity | now rewrite IH]. Qed.

Lemma append_inj_l (a b c : string) : a ++ b = a ++ c -> b = c.
Proof. induction a as [| x a IH]; simpl; [auto |]. intros H. inversion H. auto. Qed.

Lemma append_inj_r (a b c : string) : a ++ c = b ++ c -> a = b.
Proof.
  intros H.
  assert (Hlen : String.length a = String.length b).
  { apply (f_equal String.length) in H. rewrite !length_append in H. lia. }
  revert b H Hlen. induction a as [| x a IH]; intros [| y b] H Hlen; try discriminate.
  - reflexivity.
  - simpl in H, Hlen. inversion H. f_equal. apply IH; [assumption | lia].
Qed.

Lemma npy_is_not_pkl (a b : string) : a ++ ".npy" <> b ++ ".pkl".
Proof.
  intros H.
  assert (Hlen : String.length a = String.length b).
  { apply (f_equal String.length) in H. rewrite !length_append in H. simpl in H. lia. }
  revert b H Hlen. induction a as [| x a IH]; intros [| y b] H Hlen; try discriminate.
  simpl in H, Hlen. inversion H. eapply IH; [eassumption | lia].
Qed.

Lemma str_inj (i j : Z) : str i = str j -> i = j.
Proof.
  unfold str. intros H. apply DecimalZ.to_int_inj.
  assert (Hnil : forall z, Z.to_int z <> Decimal.Pos Decimal.Nil /\
                           Z.to_int z <> Decimal.Neg Decimal.Nil).
  { intros [| p | p]; simpl; split; try discriminate; intros E; inversion E as [E'];
      exact (DecimalPos.Unsigned.to_uint_nonnil p E'). }
  apply (f_equal NilZero.int_of_string) in H.
  rewrite !NilZero.isi in H by apply Hnil. congruence.
Qed.

Lemma parts_eqb_eq (a b : list string) : parts_eqb a b = true -> a = b.
Proof.
  revert b. induction a as [| x a IH]; intros [| y b]; simpl; try discriminate; [reflexivity |].
  intros H. apply andb_prop in H. destruct H as [H1 H2]. apply String.eqb_eq in H1.
  f_equal; auto.
Qed.

Lemma Path_eqb_eq (p q : Path) : Path_eqb p q = true -> p = q.
Proof.
  unfold Path_eqb. intros H. apply andb_prop in H. destruct H as [H1 H2].
  apply String.eqb_eq in H1. apply parts_eqb_eq in H2. destruct p, q. simpl in *. congruence.
Qed.

Lemma Path_eqb_neq (p q : Path) : p <> q -> Path_eqb p q = false.
Proof.
  intros H. destruct (Path_eqb p q) eqn:E; [| reflexivity]. apply Path_eqb_eq in E. contradiction.
Qed.

(** The files of two artifacts of one path differ when their indices or
    their extensions do. *)
Lemma artifact_names_differ (path : Path) (i j : Z) (ext ext' : string) :
  str i ++ ext <> str j ++ ext' ->
  mkPath (anchor path) (removelast (parts path) ++ [name path ++ "_" ++ str i ++ ext])
  <> mkPath (anchor path) (removelast (parts path) ++ [name path ++ "_" ++ str j ++ ext']).
Proof.
  intros Hne H. inversion H as [H']. apply app_inj_tail in H'. destruct H' as [_ H'].
  apply append_inj_l in H'. apply (append_inj_l "_") in H'. contradiction.
Qed.

End NameFacts.

Section SavingFacts.

Import Utilities.

Variable Obj : Type.

Lemma nameless_with_name (path : Path) (new : string) :
  parts path = [] -> with_name path new = inl ValueError.
Proof. intros H. unfold with_name, name. rewrite H. reflexivity. Qed.

(** X10.  A path without final component, such as the empty path or the root
    directory, names no artifact: [append_string_to_path] raises
    [ValueError], and so does every load.  The save functions call
    [os.makedirs] first; the directory is the path itself and exists, so they
    raise [FileExistsError] when [exist_ok] is false and [ValueError]
    otherwise.  No file is written. *)
Theorem path_without_name_is_refused
        (i : Z) (path : Path) (string : string) (trace : list (list float)) (obj : Obj)
        (exist_ok : bool) (fs : FS Obj) (Hparts : parts path = []) :
  append_string_to_path path string = inl ValueError /\
  load_chain Obj i path fs = Raise ValueError fs /\
  load_node Obj i path fs = Raise ValueError fs /\
  load_rng_states Obj i path fs = Raise ValueError fs /\
  save_chain Obj i path trace exist_ok fs
  = Raise (if exist_ok then ValueError else FileExistsError) fs /\
  save_node Obj i path obj exist_ok fs
  = Raise (if exist_ok then ValueError else FileExistsError) fs /\
  save_rng_states Obj i path obj exist_ok fs
  = Raise (if exist_ok then ValueError else FileExistsError) fs.
Proof.
  assert (Ha : forall s, append_string_to_path path s = inl ValueError)
    by (intros s; apply nameless_with_name; exact Hparts).
  assert (Hd : is_dir Obj fs (parent path) = true)
    by (unfold is_dir, parent; simpl; rewrite Hparts; reflexivity).
  repeat split; auto;
    unfold load_chain, load_node, load_rng_states, save_chain, save_node, save_rng_states,
      lift, bind, read, os_makedirs; rewrite ?Hd, ?Ha; destruct exist_ok; reflexivity.
Qed.

Lemma is_dir_after_makedirs (p : Path) (ok : bool) (fs fs' : FS Obj) :
  os_makedirs Obj p ok fs = Ok tt fs' -> is_dir Obj fs' p = true.
Proof.
  unfold os_makedirs. destruct (is_dir Obj fs p) eqn:E.
  - destruct ok; [| discriminate]. intros H. inversion H; subst. exact E.
  - intros H. inversion H; subst. unfold is_dir in *. simpl.
    destruct (parts p) as [| x l] eqn:Ep; [reflexivity |].
    rewrite existsb_app. apply orb_true_iff. left. apply existsb_exists. exists p. split.
    + unfold ancestors. apply in_map_iff. exists (length (parts p)). split.
      * rewrite firstn_all. destruct p; reflexivity.
      * apply in_seq. rewrite Ep. simpl. lia.
    + apply Path_eqb_refl.
Qed.

Lemma write_file_dirs (p : Path) (b : Blob Obj) (fs fs' : FS Obj) :
  write_file Obj p b fs = Ok tt fs' -> dirs Obj fs' = dirs Obj fs.
Proof.
  unfold write_file. destruct (is_dir Obj fs (parent p)); [| discriminate].
  intros H. inversion H. reflexivity.
Qed.

Lemma is_dir_dirs (fs fs' : FS Obj) (p : Path) :
  dirs Obj fs' = dirs Obj fs -> is_dir Obj fs' p = is_dir Obj fs p.
Proof. intros H. unfold is_dir. now rewrite H. Qed.

Lemma save_chain_is_dir (i : Z) (path : Path) (trace : list (list float)) (ok : bool)
      (fs fs' : FS Obj) :
  save_chain Obj i path trace ok fs = Ok tt fs' -> is_dir Obj fs' (parent path) = true.
Proof.
  unfold save_chain. intros H.
  apply bind_ok_inv in H. destruct H as ([] & s1 & Hm & H).
  apply bind_ok_inv in H. destruct H as (file & s2 & Hl & H).
  unfold lift, read in Hl. destruct (append_string_to_path _ _); inversion Hl; subst.
  unfold np_save in H. apply write_file_dirs in H.
  rewrite (is_dir_dirs _ _ _ H). eapply is_dir_after_makedirs. exact Hm.
Qed.

(** X11.  [exist_ok] is handed to [os.makedirs] for the directory of the
    artifacts, it does not look at the file.  Once a chain has been saved the
    directory exists, and every further save to that directory with
    [exist_ok = False] raises [FileExistsError] before it writes anything,
    whatever the process index. *)
Theorem save_without_exist_ok_fails_in_existing_directory
        (i j : Z) (path : Path) (trace trace' : list (list float)) (obj : Obj) (ok : bool)
        (fs fs1 : FS Obj)
        (Hsaved : save_chain Obj i path trace ok fs = Ok tt fs1) :
  is_dir Obj fs1 (parent path) = true /\
  save_chain Obj j path trace' false fs1 = Raise FileExistsError fs1 /\
  save_node Obj j path obj false fs1 = Raise FileExistsError fs1 /\
  save_rng_states Obj j path obj false fs1 = Raise FileExistsError fs1.
Proof.
  pose proof (save_chain_is_dir _ _ _ _ _ _ Hsaved) as Hd.
  repeat split; [exact Hd | | |];
    unfold save_chain, save_node, save_rng_states, bind, os_makedirs; rewrite Hd; reflexivity.
Qed.

Lemma read_file_frame (p q : Path) (b : Blob Obj) (fs fs' : FS Obj) :
  write_file Obj q b fs = Ok tt fs' -> p <> q -> read_file Obj fs' p = read_file Obj fs p.
Proof.
  unfold write_file. destruct (is_dir Obj fs (parent q)); [| discriminate].
  intros H Hne. inversion H; subst. unfold read_file. simpl.
  now rewrite (Path_eqb_neq p q Hne).
Qed.

Lemma makedirs_files (p : Path) (ok : bool) (fs fs' : FS Obj) :
  os_makedirs Obj p ok fs = Ok tt fs' -> files Obj fs' = files Obj fs.
Proof.
  unfold os_makedirs.
  destruct (is_dir Obj fs p); [destruct ok |]; intros H; inversion H; reflexivity.
Qed.

Lemma read_file_files (fs fs' : FS Obj) (p : Path) :
  files Obj fs' = files Obj fs -> read_file Obj fs' p = read_file Obj fs p.
Proof. intros H. unfold read_file. now rewrite H. Qed.

(** What a successful save of the artifact with extension [ext] leaves of the
    other files. *)
Lemma save_chain_frame (j : Z) (path p : Path) (trace : list (list float)) (ok : bool)
      (fs fs' : FS Obj) :
  name path <> "" -> contains "/" (name path) = false ->
  save_chain Obj j path trace ok fs = Ok tt fs' ->
  p <> mkPath (anchor path) (removelast (parts path) ++ [name path ++ "_" ++ str j ++ ".npy"]) ->
  read_file Obj fs' p = read_file Obj fs p.
Proof.
  intros Hname Hsep H Hne. unfold save_chain, lift in H.
  rewrite (append_index path j ".npy" Hname Hsep eq_refl) in H.
  apply bind_ok_inv in H. destruct H as ([] & s1 & Hm & H).
  unfold bind, read, np_save in H. rewrite name_with_last in H.
  rewrite (endswith_append (name path) _ ".npy") in H
    by (apply (endswith_append "_"), endswith_append, endswith_refl).
  rewrite (read_file_frame p _ _ _ _ H Hne). apply read_file_files. eapply makedirs_files. exact Hm.
Qed.

Lemma save_node_frame (j : Z) (path p : Path) (obj : Obj) (ok : bool) (fs fs' : FS Obj) :
  name path <> "" -> contains "/" (name path) = false ->
  save_node Obj j path obj ok fs = Ok tt fs' ->
  p <> mkPath (anchor path) (removelast (parts path) ++ [name path ++ "_" ++ str j ++ ".pkl"]) ->
  read_file Obj fs' p = read_file Obj fs p.
Proof.
  intros Hname Hsep H Hne. unfold save_node, lift in H.
  rewrite (append_index path j ".pkl" Hname Hsep eq_refl) in H.
  apply bind_ok_inv in H. destruct H as ([] & s1 & Hm & H).
  unfold bind, read, pickle_dump in H.
  rewrite (read_file_frame p _ _ _ _ H Hne). apply read_file_files. eapply makedirs_files. exact Hm.
Qed.

Lemma load_chain_reads (i : Z) (path : Path) (trace : list (list float)) (fs : FS Obj) :
  name path <> "" -> contains "/" (name path) = false ->
  read_file Obj fs
    (mkPath (anchor path) (removelast (parts path) ++ [name path ++ "_" ++ str i ++ ".npy"]))
  = Some (Npy Obj trace) ->
  load_chain Obj i path fs = Ok trace fs.
Proof.
  intros Hname Hsep H. unfold load_chain, lift.
  rewrite (append_index path i ".npy" Hname Hsep eq_refl).
  unfold bind, read, np_load. now rewrite H.
Qed.

Lemma load_node_reads (i : Z) (path : Path) (obj : Obj) (fs : FS Obj) :
  name path <> "" -> contains "/" (name path) = false ->
  read_file Obj fs
    (mkPath (anchor path) (removelast (parts path) ++ [name path ++ "_" ++ str i ++ ".pkl"]))
  = Some (Pickle Obj obj) ->
  load_node Obj i path fs = Ok obj fs.
Proof.
  intros Hname Hsep H. unfold load_node, lift.
  rewrite (append_index path i ".pkl" Hname Hsep eq_refl).
  unfold bind, read, pickle_load. now rewrite H.
Qed.

(** X12.  Processes with different indices write different files: after
    process [i] and then process [j] have saved their chains and their nodes
    under the same path, each load returns what its own process saved. *)
Theorem processes_do_not_overwrite_each_other
        (i j : Z) (path : Path) (trace trace' : list (list float)) (node node' : Obj)
        (ok1 ok2 ok3 ok4 : bool) (fs fs1 fs2 fs3 fs4 : FS Obj)
        (Hname : name path <> "") (Hsep : contains "/" (name path) = false)
        (Hne : i <> j)
        (H1 : save_chain Obj i path trace ok1 fs = Ok tt fs1)
        (H2 : save_node Obj i path node ok2 fs1 = Ok tt fs2)
        (H3 : save_chain Obj j path trace' ok3 fs2 = Ok tt fs3)
        (H4 : save_node Obj j path node' ok4 fs3 = Ok tt fs4) :
  load_chain Obj i path fs4 = Ok trace fs4 /\
  load_node Obj i path fs4 = Ok node fs4 /\
  load_chain Obj j path fs4 = Ok trace' fs4 /\
  load_node Obj j path fs4 = Ok node' fs4.
Proof.
  set (file := fun (k : Z) (ext : string) =>
                 mkPath (anchor path)
                        (removelast (parts path) ++ [name path ++ "_" ++ str k ++ ext])).
  assert (Hstr : str i <> str j) by (intros H; apply Hne, str_inj, H).
  assert (Dnn : file i ".npy" <> file j ".npy").
  { apply artifact_names_differ. intros H. apply append_inj_r in H. contradiction. }
  assert (Dpp : file i ".pkl" <> file j ".pkl").
  { apply artifact_names_differ. intros H. apply append_inj_r in H. contradiction. }
  assert (Dnp : forall a b, file a ".npy" <> file b ".pkl").
  { intros a b. apply artifact_names_differ, npy_is_not_pkl. }
  assert (Dpn : forall a b, file a ".pkl" <> file b ".npy").
  { intros a b H. symmetry in H. revert H. apply Dnp. }
  pose proof (proj1 (save_then_load_npy Obj i path trace ok1 fs fs1 Hname Hsep H1)) as R1.
  pose proof (proj1 (save_then_load_pkl Obj i path node ok2 fs1 fs2 Hname Hsep H2)) as R2.
  pose proof (proj1 (save_then_load_npy Obj j path trace' ok3 fs2 fs3 Hname Hsep H3)) as R3.
  pose proof (proj1 (save_then_load_pkl Obj j path node' ok4 fs3 fs4 Hname Hsep H4)) as R4.
  fold (file i ".npy") in R1. fold (file i ".pkl") in R2.
  fold (file j ".npy") in R3. fold (file j ".pkl") in R4.
  repeat split.
  - apply load_chain_reads; auto. fold (file i ".npy").
    rewrite (save_node_frame j path _ node' ok4 fs3 fs4 Hname Hsep H4 (Dnp i j)).
    rewrite (save_chain_frame j path _ trace' ok3 fs2 fs3 Hname Hsep H3 Dnn).
    rewrite (save_node_frame i path _ node ok2 fs1 fs2 Hname Hsep H2 (Dnp i i)).
    exact R1.
  - apply load_node_reads; auto. fold (file i ".pkl").
    rewrite (save_node_frame j path _ node' ok4 fs3 fs4 Hname Hsep H4 Dpp).
    rewrite (save_chain_frame j path _ trace' ok3 fs2 fs3 Hname Hsep H3 (Dpn i j)).
    exact R2.
  - apply load_chain_reads; auto. fold (file j ".npy").
    rewrite (save_node_frame j path _ node' ok4 fs3 fs4 Hname Hsep H4 (Dnp j j)).
    exact R3.
  - apply load_node_reads; auto.
Qed.

(** X13.  [save_node] and [save_rng_states] name their file alike: given the
    same path and process index the second save replaces the file of the
    first, and [load_node] then returns the generator states.  The chain file
    of that path is a different file and stays as it was. *)
Theorem node_and_rng_states_share_a_file
        (i : Z) (path : Path) (trace : list (list float)) (node rng_states : Obj)
        (ok1 ok2 ok3 : bool) (fs fs1 fs2 fs3 : FS Obj)
        (Hname : name path <> "") (Hsep : contains "/" (name path) = false)
        (H1 : save_chain Obj i path trace ok1 fs = Ok tt fs1)
        (H2 : save_node Obj i path node ok2 fs1 = Ok tt fs2)
        (H3 : save_rng_states Obj i path rng_states ok3 fs2 = Ok tt fs3) :
  load_node Obj i path fs3 = Ok rng_states fs3 /\
  load_rng_states Obj i path fs3 = Ok rng_states fs3 /\
  load_chain Obj i path fs3 = Ok trace fs3.
Proof.
  pose proof (save_then_load_pkl Obj i path rng_states ok3 fs2 fs3 Hname Hsep H3) as [_ R3].
  split; [exact R3 | split; [exact R3 |]].
  apply load_chain_reads; auto.
  assert (D : mkPath (anchor path)
                     (removelast (parts path) ++ [name path ++ "_" ++ str i ++ ".npy"])
              <> mkPath (anchor path)
                        (removelast (parts path) ++ [name path ++ "_" ++ str i ++ ".pkl"]))
    by apply artifact_names_differ, npy_is_not_pkl.
  rewrite (save_node_frame i path _ rng_states ok3 fs2 fs3 Hname Hsep H3 D).
  rewrite (save_node_frame i path _ node ok2 fs1 fs2 Hname Hsep H2 D).
  exact (proj1 (save_then_load_npy Obj i path trace ok1 fs fs1 Hname Hsep H1)).
Qed.

End SavingFacts.

(** * The model server *)

Section ServerFacts.

Import Server.

Variable HTTPModel : Type.
Variable connect_at : string -> string -> nat -> PyExn + HTTPModel.

(** One pass through the loop: a model is returned, or ten seconds are slept
    and the loop goes on. *)
Lemma request_umbridge_server_step (fuel : nat) (process_id : Z) (address name : string)
      (n : Net) :
  request_umbridge_server HTTPModel connect_at (S fuel) process_id address name n
  = let calling := "Calling server " ++ name ++ " at " ++ address ++ "..." in
    match connect_at address name (attempts n) with
    | inr ub_server =>
        Ok ub_server
           (mkNet (S (attempts n)) (slept n)
                  (printed n ++ if process_id =? 0 then [calling; ("Server available" ++ nl)%string]
                                else [])%list)
    | inl _ =>
        request_umbridge_server HTTPModel connect_at fuel process_id address name
          (mkNet (S (attempts n)) (slept n + 10)
                 (printed n ++ if process_id =? 0 then [calling] else [])%list)
    end.
Proof.
  cbv zeta. simpl. unfold bind at 1. unfold try_except.
  unfold bind at 1. destruct (process_id =? 0); simpl.
  - unfold bind at 1. unfold HTTPModel_init. simpl.
    destruct (connect_at address name (attempts n)); simpl.
    + reflexivity.
    + now rewrite <- app_assoc.
  - unfold bind at 1. unfold HTTPModel_init. destruct n as [a s p]. simpl.
    destruct (connect_at address name a); simpl; now rewrite app_nil_r.
Qed.

(** X14.  [request_umbridge_server] asks until the constructor of the model
    returns: when the next [k] calls raise, whatever they raise, and the one
    after them returns a model, that model is returned after [k + 1] calls
    and [10 k] seconds of sleep.  Only process 0 prints: the calling line at
    every attempt and the line of success once. *)
Theorem server_is_requested_until_it_answers
        (fuel k : nat) (process_id : Z) (address name : string) (n : Net)
        (ub_server : HTTPModel)
        (Hfail : forall a, (a < k)%nat ->
                           exists e, connect_at address name (attempts n + a) = inl e)
        (Hanswer : connect_at address name (attempts n + k) = inr ub_server)
        (Hfuel : (k < fuel)%nat) :
  request_umbridge_server HTTPModel connect_at fuel process_id address name n
  = Ok ub_server
       (mkNet (attempts n + k + 1) (slept n + 10 * Z.of_nat k)
              (printed n ++
               if process_id =? 0
               then repeat ("Calling server " ++ name ++ " at " ++ address ++ "...")%string (S k)
                    ++ [("Server available" ++ nl)%string]
               else [])%list).
Proof.
  revert fuel n Hfail Hanswer Hfuel. induction k as [| k IH]; intros fuel n Hfail Hanswer Hfuel;
    (destruct fuel as [| fuel]; [lia |]); rewrite request_umbridge_server_step; cbv zeta.
  - rewrite Nat.add_0_r in Hanswer. rewrite Hanswer.
    do 2 f_equal; try lia; try (destruct (process_id =? 0); reflexivity).
  - destruct (Hfail 0%nat ltac:(lia)) as [e He]. rewrite Nat.add_0_r in He. rewrite He.
    rewrite IH.
    + simpl attempts. simpl slept. simpl printed.
      do 2 f_equal; try lia;
        try (rewrite <- app_assoc; destruct (process_id =? 0); reflexivity).
    + intros a Ha. simpl attempts. destruct (Hfail (S a) ltac:(lia)) as [e' He'].
      exists e'. rewrite <- He'. f_equal. lia.
    + simpl attempts. rewrite <- Hanswer. f_equal. lia.
    + lia.
Qed.


End ServerFacts.

(** * The postprocessing script *)

Section PostprocessingFacts.

Import Postprocessing.

Lemma replace_app (a b : ascii) (s t : string) :
  replace a b (s ++ t) = replace a b s ++ replace a b t.
Proof. induction s as [| x s IH]; simpl; [reflexivity | now rewrite IH]. Qed.

Lemma contains_replace (a b : ascii) (s : string) :
  a <> b -> Utilities.contains a (replace a b s) = false.
Proof.
  intros Hne. induction s as [| x s IH]; simpl; [reflexivity |]. rewrite IH, orb_false_r.
  destruct (Ascii.eqb x a) eqn:E; [| exact E].
  apply Ascii.eqb_neq. congruence.
Qed.

Lemma contains_lstrip (a c : ascii) (s : string) :
  Utilities.contains a s = false -> Utilities.contains a (lstrip c s) = false.
Proof.
  induction s as [| x s IH]; simpl; [auto |]. intros H. apply orb_false_iff in H.
  destruct H as [H1 H2]. destruct (Ascii.eqb x c); [auto |]. simpl. now rewrite H1, H2.
Qed.

Lemma contains_rstrip (a c : ascii) (s : string) :
  Utilities.contains a s = false -> Utilities.contains a (rstrip c s) = false.
Proof.
  induction s as [| x s IH]; simpl; [auto |]. intros H. apply orb_false_iff in H.
  destruct H as [H1 H2]. specialize (IH H2).
  destruct (rstrip c s) as [| y r].
  - destruct (Ascii.eqb x c); [reflexivity |]. simpl. now rewrite H1.
  - change (Utilities.contains a (String x (String y r)))
      with (Ascii.eqb x a || Utilities.contains a (String y r)).
    now rewrite H1, IH.
Qed.

Lemma lstrip_not_head (c : ascii) (s rest : string) : lstrip c s <> String c rest.
Proof.
  induction s as [| x s IH]; simpl; [discriminate |].
  destruct (Ascii.eqb x c) eqn:E; [exact IH |].
  intros H. inversion H. subst. now rewrite Ascii.eqb_refl in E.
Qed.

Lemma rstrip_not_last (c : ascii) (s rest : string) : rstrip c s <> rest ++ String c "".
Proof.
  revert rest. induction s as [| x s IH]; intros rest; simpl.
  - destruct rest; discriminate.
  - destruct (rstrip c s) as [| y r] eqn:Er.
    + destruct (Ascii.eqb x c) eqn:E; [destruct rest; discriminate |].
      destruct rest as [| z rest]; simpl; intros H; inversion H.
      * subst. now rewrite Ascii.eqb_refl in E.
      * destruct rest; discriminate.
    + destruct rest as [| z rest]; simpl; intros H; inversion H. eapply IH. eassumption.
Qed.

Lemma lstrip_suffix (c : ascii) (s rest : string) :
  lstrip c s = rest ++ String c "" -> exists rest', s = rest' ++ String c "".
Proof.
  induction s as [| x s IH]; simpl; [eauto |].
  destruct (Ascii.eqb x c); [| eauto].
  intros H. destruct (IH H) as [rest' ->]. exists (String x rest'). reflexivity.
Qed.

Lemma rstrip_snoc (c : ascii) (s : string) : rstrip c (s ++ String c "") = rstrip c s.
Proof.
  induction s as [| x s IH]; simpl; [now rewrite Ascii.eqb_refl | now rewrite IH].
Qed.

Lemma strip_cons (c : ascii) (s : string) : strip c (String c s) = strip c s.
Proof.
  unfold strip. simpl. destruct (rstrip c s) as [| y r]; rewrite ?Ascii.eqb_refl; simpl;
    now rewrite ?Ascii.eqb_refl.
Qed.

(** X16.  The module name [process_cli_arguments] returns is the application
    directory turned into a dotted name, a dot and the name of the settings
    file, ["settings"] when none is given.  The dotted name holds no slash and
    neither starts nor ends with a dot. *)
Theorem settings_module_is_a_dotted_name (application : string) (settings : option string) :
  exists application_dir,
    process_cli_arguments application settings
    = application_dir ++ "." ++ match settings with Some s => s | None => "settings" end /\
    Utilities.contains "/" application_dir = false /\
    (forall rest, application_dir <> "." ++ rest) /\
    (forall rest, application_dir <> rest ++ ".").
Proof.
  exists (strip "." (replace "/" "." application)). split; [reflexivity |]. split; [| split].
  - unfold strip. apply contains_lstrip, contains_rstrip, contains_replace. discriminate.
  - intros rest. apply lstrip_not_head.
  - intros rest H. unfold strip in H. apply lstrip_suffix in H. destruct H as [rest' H].
    revert H. apply rstrip_not_last.
Qed.

(** X17.  Slashes and dots around the application directory do not matter: a
    trailing slash, a leading [./] and a leading slash give the module name of
    the bare directory. *)
Theorem slashes_around_the_application_are_ignored
        (application : string) (settings : option string) :
  process_cli_arguments (application ++ "/") settings
  = process_cli_arguments application settings /\
  process_cli_arguments ("./" ++ application) settings
  = process_cli_arguments application settings /\
  process_cli_arguments ("/" ++ application) settings
  = process_cli_arguments application settings.
Proof.
  unfold process_cli_arguments. repeat split; f_equal.
  - rewrite replace_app. simpl. unfold strip. now rewrite rstrip_snoc.
  - simpl. now rewrite !strip_cons.
  - simpl. now rewrite strip_cons.
Qed.

End PostprocessingFacts.

(** * The settings of a parallel run *)

Section SettingsFacts.

Import GeneralSettings.

Lemma is_field_In (fields : list Field) (key : string) :
  is_field fields key = true <-> In key (map fst fields).
Proof.
  unfold is_field. rewrite existsb_exists, in_map_iff. split.
  - intros (f & Hf & He). apply String.eqb_eq in He. eauto.
  - intros (f & He & Hf). exists f. split; [exact Hf |]. now apply String.eqb_eq.
Qed.

Lemma bind_fields_names (kwargs : list (string * Arg)) (fields : list Field)
      (values : list (string * Arg)) :
  bind_fields kwargs fields = Some values -> map fst values = map fst fields.
Proof.
  revert values. induction fields as [| f fields IH]; intros values; simpl.
  - intros H. inversion H. reflexivity.
  - destruct (bind_field kwargs f) as [v |]; [| discriminate].
    destruct (bind_fields kwargs fields) as [rest |]; [| discriminate].
    intros H. inversion H. simpl. f_equal. now apply IH.
Qed.

Lemma bind_fields_some (kwargs : list (string * Arg)) (fields : list Field) :
  (exists values, bind_fields kwargs fields = Some values) <->
  (forall f, In f fields -> snd f = None -> lookup_kw (fst f) kwargs <> None).
Proof.
  induction fields as [| f fields IH]; simpl.
  - split; [intros _ f [] | eauto].
  - unfold bind_field at 1. split.
    + intros [values H] g [<- | Hg] Hd.
      * rewrite Hd in H. destruct (lookup_kw (fst f) kwargs); [discriminate | discriminate H].
      * destruct (match lookup_kw (fst f) kwargs with Some v => Some v | None => snd f end);
          [| discriminate].
        destruct (bind_fields kwargs fields) as [rest |]; [| discriminate].
        apply (proj1 IH); eauto.
    + intros H.
      destruct (proj2 IH (fun g Hg => H g (or_intror Hg))) as [rest ->].
      specialize (H f (or_introl eq_refl)).
      destruct (lookup_kw (fst f) kwargs); [eauto |].
      destruct (snd f); [eauto |]. now contradiction H.
Qed.

(** X18.  [ParallelRunSettings(...)] with keyword arguments returns an object
    exactly when every keyword is one of the seven fields of the class and
    the two fields without default, [num_chains] and [chain_save_path], are
    given; the object then has the seven fields.  Every other call raises
    [TypeError]. *)
Theorem ParallelRunSettings_takes_its_fields_only (kwargs : list (string * Arg)) :
  ((exists values, ParallelRunSettings kwargs = inr values) <->
   (forall key, In key (map fst kwargs) -> In key (map fst ParallelRunSettings_fields)) /\
   lookup_kw "num_chains" kwargs <> None /\
   lookup_kw "chain_save_path" kwargs <> None) /\
  (forall values,
      ParallelRunSettings kwargs = inr values ->
      map fst values = map fst ParallelRunSettings_fields) /\
  (forall e, ParallelRunSettings kwargs = inl e -> e = OtherError "TypeError").
Proof.
  assert (Hall : forallb (fun kv => is_field ParallelRunSettings_fields (fst kv)) kwargs = true
                 <-> forall key, In key (map fst kwargs) ->
                                 In key (map fst ParallelRunSettings_fields)).
  { rewrite forallb_forall. split.
    - intros H key Hk. apply in_map_iff in Hk. destruct Hk as (kv & <- & Hin).
      apply is_field_In. auto.
    - intros H kv Hin. apply is_field_In, H. apply in_map_iff. eauto. }
  assert (Hreq : (exists values, bind_fields kwargs ParallelRunSettings_fields = Some values)
                 <-> lookup_kw "num_chains" kwargs <> None /\
                     lookup_kw "chain_save_path" kwargs <> None).
  { rewrite bind_fields_some. split.
    - intros H. split; [apply (H ("num_chains", None)) | apply (H ("chain_save_path", None))];
        simpl; auto.
    - intros [H1 H2] f Hf Hd. simpl in Hf.
      destruct Hf as [<- | [<- | [<- | [<- | [<- | [<- | [<- | []]]]]]]]; try discriminate Hd;
        assumption. }
  unfold ParallelRunSettings, dataclass_init.
  destruct (forallb _ kwargs) eqn:Ef.
  - destruct (bind_fields kwargs ParallelRunSettings_fields) as [values |] eqn:Eb.
    + split; [split | split].
      * intros _. split; [now apply Hall | apply Hreq; eauto].
      * eauto.
      * intros v Hv. inversion Hv; subst. eapply bind_fields_names. exact Eb.
      * intros e He. discriminate He.
    + split; [split | split].
      * intros [v Hv]. discriminate Hv.
      * intros (_ & H). apply Hreq in H. destruct H as [v Hv]. discriminate Hv.
      * intros v Hv. discriminate Hv.
      * intros e He. inversion He. reflexivity.
  - split; [split | split].
    + intros [values Hv]. discriminate Hv.
    + intros (H & _). apply Hall in H. discriminate H.
    + intros values Hv. discriminate Hv.
    + intros e He. inversion He. reflexivity.
Qed.

(** X19.  A keyword that is not a field of the class makes the call raise
    [TypeError].  The call in [seissol/zihua_1D/settings.py] passes
    [node_save_path], [node_load_path] and [overwrite_node], which
    [ParallelRunSettings] does not have. *)
Theorem unexpected_keyword_is_a_type_error
        (kwargs : list (string * Arg)) (key : string) (value : Arg)
        (Hgiven : In (key, value) kwargs)
        (Hunknown : is_field ParallelRunSettings_fields key = false) :
  ParallelRunSettings kwargs = inl (OtherError "TypeError").
Proof.
  unfold ParallelRunSettings, dataclass_init.
  destruct (forallb _ kwargs) eqn:Ef; [| reflexivity].
  rewrite forallb_forall in Ef. specialize (Ef _ Hgiven). cbn [fst] in Ef. congruence.
Qed.

End SettingsFacts.

(** * Further runs of the reference world *)

Section FurtherRuns.

Import Scenario.

Lemma decisions_end_with_a_pass_without_decision_witness :
  let sg := Edge.after_harvest (settings 2 4) [] in
  let sg' := final sg (_compute_available_mcmc_decisions world 20 (mltree_root sg) sg) in
  _compute_available_mcmc_decisions world 20 (mltree_root sg) sg = Ok tt sg' /\
  Forall (fun node => exists g t,
              check_if_node_is_available_for_decision world (store sg') node = inr (false, g, t))
         (concat (LevelOrderGroupIter (heap (store sg')) (mltree_root sg))) /\
  mcmc_chain sg' = mcmc_chain sg.
Proof.
  intros sg sg'.
  assert (H : _compute_available_mcmc_decisions world 20 (mltree_root sg) sg = Ok tt sg')
    by (vm_compute; reflexivity).
  split; [exact H |].
  exact (decisions_end_with_a_pass_without_decision world 20 (mltree_root sg) sg sg' H).
Defined.

Lemma decision_of_neither_kind_reads_accepted_witness :
  let sg := Edge.after_harvest (settings 2 4) [] in
  let nd := nth 0 (heap (store sg)) (mkMTNode "" None [] 0%float 0 0 None None) in
  heap (store sg) !! 0%nat = Some nd /\
  _compute_available_mcmc_decisions Edge.undecided 20 0%nat sg = Raise UnboundLocalError sg.
Proof.
  intros sg nd.
  assert (Hroot : heap (store sg) !! 0%nat = Some nd) by (vm_compute; reflexivity).
  split; [exact Hroot |].
  exact (proj1 (decision_of_neither_kind_reads_accepted Edge.undecided 19 0%nat sg nd Hroot
                  eq_refl)).
Defined.

Lemma zero_print_interval_stops_the_advance_witness :
  let rs := Edge.unprinted 2 4 in
  let sg := Edge.before_propagate rs [] in
  let nd := nth 0 (heap (store sg)) (mkMTNode "" None [] 0%float 0 0 None None) in
  (print_interval rs = 0 /\
   get_unique_same_subchain_child world (store sg) 0%nat = inr (Some 1%nat) /\
   heap (store sg) !! 0%nat = Some nd) /\
  _propagate_chain world setup rs 0%float 20 0%nat sg
  = Raise ZeroDivisionError
          (mkSigma (store sg) (mcmc_chain sg ++ [state nd])%list (mltree_root sg)).
Proof.
  intros rs sg nd.
  assert (Hchild : get_unique_same_subchain_child world (store sg) 0%nat = inr (Some 1%nat))
    by (vm_compute; reflexivity).
  assert (Hroot : heap (store sg) !! 0%nat = Some nd) by (vm_compute; reflexivity).
  split; [split; [reflexivity | split; assumption] |].
  exact (proj2 (zero_print_interval_stops_the_advance world setup rs 0%float 19 0%nat 1%nat sg nd
                  eq_refl Hchild Hroot)).
Defined.

Lemma zero_print_interval_caps_the_chain_witness :
  (print_interval (Edge.unprinted 5 4) = 0 /\ 2 <= num_samples (Edge.unprinted 5 4)) /\
  forall sg1,
    run_try world setup (Edge.unprinted 5 4)
            (fst (run_init world setup (Edge.unprinted 5 4) (start []))) 20
            (snd (run_init world setup (Edge.unprinted 5 4) (start [])))
    <> Ok tt sg1.
Proof.
  assert (Hn : 2 <= num_samples (Edge.unprinted 5 4)) by (simpl; lia).
  split; [split; [reflexivity | exact Hn] |].
  pose proof (zero_print_interval_caps_the_chain world setup 20 (Edge.unprinted 5 4) (start [])
                eq_refl) as H.
  destruct H as [_ H]. exact (H Hn).
Defined.

(** Five samples requested with [print_interval = 0]: [run] returns two. *)
Example run_without_print_interval_stops_at_two_samples :
  returned (run world setup 20 (Edge.unprinted 5 4) (start [])) = Some [[0%float]; [0%float]].
Proof. vm_compute. reflexivity. Qed.

Lemma main_loop_runs_once_when_chain_is_long_enough_witness :
  let rs := settings 1 4 in
  let sg := before_first_phase rs [] in
  num_samples rs <= len (mcmc_chain sg) /\
  main_loop world setup rs 0%float 20 20 sg = iteration world setup rs 0%float 20 sg.
Proof.
  intros rs sg.
  assert (Hlen : num_samples rs <= len (mcmc_chain sg)) by (vm_compute; discriminate).
  split; [exact Hlen |].
  exact (main_loop_runs_once_when_chain_is_long_enough world setup rs 0%float 20 19 sg Hlen).
Defined.

Lemma run_returns_initial_state_when_executor_fails_witness :
  let rs := settings 2 0 in
  let st := start [] in
  let sg0 := snd (run_init world setup rs st) in
  executor_enter world (num_threads rs) (store sg0) = Raise ValueError (store sg0) /\
  run world setup 20 rs st
  = match run_except world ValueError (mkSigma (store sg0) [initial_state rs] (mltree_root sg0)) with
    | Ok _ sg' => Ok [initial_state rs] (store sg')
    | Raise _ sg' => Ok [initial_state rs] (store sg')
    | Diverge => Diverge
    end.
Proof.
  intros rs st sg0.
  assert (Hfail : executor_enter world (num_threads rs) (store sg0) = Raise ValueError (store sg0))
    by reflexivity.
  split; [exact Hfail |].
  exact (run_returns_initial_state_when_executor_fails world setup rs 20 st (store sg0) ValueError
           Hfail).
Defined.

Lemma path_without_name_is_refused_witness :
  let path := Utilities.mkPath "" [] in
  let fs := Utilities.mkFS unit [] [] in
  Utilities.parts path = [] /\
  Utilities.save_chain unit 0 path [[0%float]] true fs = Raise ValueError fs /\
  Utilities.save_chain unit 0 path [[0%float]] false fs = Raise FileExistsError fs.
Proof.
  intros path fs. split; [reflexivity |]. split.
  - exact (proj1 (proj2 (proj2 (proj2 (proj2
             (path_without_name_is_refused unit 0 path "0.npy" [[0%float]] tt true fs eq_refl)))))).
  - exact (proj1 (proj2 (proj2 (proj2 (proj2
             (path_without_name_is_refused unit 0 path "0.npy" [[0%float]] tt false fs eq_refl)))))).
Defined.

Lemma save_without_exist_ok_fails_in_existing_directory_witness :
  let fs := Utilities.mkFS unit [] [] in
  let fs1 := final fs (Utilities.save_chain unit 0 chain_save_path [[0%float]] false fs) in
  Utilities.save_chain unit 0 chain_save_path [[0%float]] false fs = Ok tt fs1 /\
  Utilities.save_chain unit 1 chain_save_path [[1%float]] false fs1 = Raise FileExistsError fs1.
Proof.
  intros fs fs1.
  assert (H : Utilities.save_chain unit 0 chain_save_path [[0%float]] false fs = Ok tt fs1)
    by (vm_compute; reflexivity).
  split; [exact H |].
  exact (proj1 (proj2 (save_without_exist_ok_fails_in_existing_directory
                         unit 0 1 chain_save_path [[0%float]] [[1%float]] tt false fs fs1 H))).
Defined.

Lemma processes_do_not_overwrite_each_other_witness :
  let fs := Utilities.mkFS unit [] [] in
  let fs1 := final fs (Utilities.save_chain unit 0 chain_save_path [[0%float]] true fs) in
  let fs2 := final fs (Utilities.save_node unit 0 chain_save_path tt true fs1) in
  let fs3 := final fs (Utilities.save_chain unit 1 chain_save_path [[1%float]] true fs2) in
  let fs4 := final fs (Utilities.save_node unit 1 chain_save_path tt true fs3) in
  (Utilities.save_chain unit 0 chain_save_path [[0%float]] true fs = Ok tt fs1 /\
   Utilities.save_node unit 0 chain_save_path tt true fs1 = Ok tt fs2 /\
   Utilities.save_chain unit 1 chain_save_path [[1%float]] true fs2 = Ok tt fs3 /\
   Utilities.save_node unit 1 chain_save_path tt true fs3 = Ok tt fs4) /\
  Utilities.load_chain unit 0 chain_save_path fs4 = Ok [[0%float]] fs4 /\
  Utilities.load_chain unit 1 chain_save_path fs4 = Ok [[1%float]] fs4.
Proof.
  intros fs fs1 fs2 fs3 fs4.
  assert (Hname : Utilities.name chain_save_path <> "") by (vm_compute; discriminate).
  assert (Hsep : Utilities.contains "/" (Utilities.name chain_save_path) = false)
    by (vm_compute; reflexivity).
  assert (Hne : 0 <> 1) by lia.
  assert (H1 : Utilities.save_chain unit 0 chain_save_path [[0%float]] true fs = Ok tt fs1)
    by (vm_compute; reflexivity).
  assert (H2 : Utilities.save_node unit 0 chain_save_path tt true fs1 = Ok tt fs2)
    by (vm_compute; reflexivity).
  assert (H3 : Utilities.save_chain unit 1 chain_save_path [[1%float]] true fs2 = Ok tt fs3)
    by (vm_compute; reflexivity).
  assert (H4 : Utilities.save_node unit 1 chain_save_path tt true fs3 = Ok tt fs4)
    by (vm_compute; reflexivity).
  split; [repeat split; assumption |].
  pose proof (processes_do_not_overwrite_each_other
                unit 0 1 chain_save_path [[0%float]] [[1%float]] tt tt true true true true
                fs fs1 fs2 fs3 fs4 Hname Hsep Hne H1 H2 H3 H4) as H.
  destruct H as (Ha & _ & Hb & _). split; [exact Ha | exact Hb].
Defined.

Lemma node_and_rng_states_share_a_file_witness :
  let fs := Utilities.mkFS bool [] [] in
  let fs1 := final fs (Utilities.save_chain bool 0 chain_save_path [[0%float]] true fs) in
  let fs2 := final fs (Utilities.save_node bool 0 chain_save_path true true fs1) in
  let fs3 := final fs (Utilities.save_rng_states bool 0 chain_save_path false true fs2) in
  (Utilities.save_chain bool 0 chain_save_path [[0%float]] true fs = Ok tt fs1 /\
   Utilities.save_node bool 0 chain_save_path true true fs1 = Ok tt fs2 /\
   Utilities.save_rng_states bool 0 chain_save_path false true fs2 = Ok tt fs3) /\
  Utilities.load_node bool 0 chain_save_path fs3 = Ok false fs3.
Proof.
  intros fs fs1 fs2 fs3.
  assert (Hname : Utilities.name chain_save_path <> "") by (vm_compute; discriminate).
  assert (Hsep : Utilities.contains "/" (Utilities.name chain_save_path) = false)
    by (vm_compute; reflexivity).
  assert (H1 : Utilities.save_chain bool 0 chain_save_path [[0%float]] true fs = Ok tt fs1)
    by (vm_compute; reflexivity).
  assert (H2 : Utilities.save_node bool 0 chain_save_path true true fs1 = Ok tt fs2)
    by (vm_compute; reflexivity).
  assert (H3 : Utilities.save_rng_states bool 0 chain_save_path false true fs2 = Ok tt fs3)
    by (vm_compute; reflexivity).
  split; [repeat split; assumption |].
  exact (proj1 (node_and_rng_states_share_a_file
                  bool 0 chain_save_path [[0%float]] true false true true true
                  fs fs1 fs2 fs3 Hname Hsep H1 H2 H3)).
Defined.

Lemma server_is_requested_until_it_answers_witness :
  let n := Server.mkNet 0 0 [] in
  (forall a, (a < 3)%nat ->
             exists e, Edge.third_retry "http://localhost:4242" "forward"
                                        (Server.attempts n + a) = inl e) /\
  Server.request_umbridge_server string Edge.third_retry 5 1 "http://localhost:4242" "forward" n
  = Ok "http://localhost:4242/forward" (Server.mkNet 4 30 []).
Proof.
  intros n.
  assert (Hfail : forall a, (a < 3)%nat ->
                            exists e, Edge.third_retry "http://localhost:4242" "forward"
                                                       (Server.attempts n + a) = inl e).
  { intros a Ha. exists (OtherError "ConnectionError"). unfold Edge.third_retry. simpl.
    destruct (Nat.ltb_spec a 3); [reflexivity | lia]. }
  split; [exact Hfail |].
  exact (server_is_requested_until_it_answers string Edge.third_retry 5 3 1
           "http://localhost:4242" "forward" n "http://localhost:4242/forward"
           Hfail eq_refl ltac:(lia)).
Defined.


Lemma unexpected_keyword_is_a_type_error_witness :
  let node_save_path :=
    GeneralSettings.APath (Utilities.mkPath "" ["results_seissol_zihua_1D"; "final_node"]) in
  (In ("node_save_path", node_save_path) GeneralSettings.zihua_1D_parallel_run_settings /\
   GeneralSettings.is_field GeneralSettings.ParallelRunSettings_fields "node_save_path" = false) /\
  GeneralSettings.ParallelRunSettings GeneralSettings.zihua_1D_parallel_run_settings
  = inl (OtherError "TypeError").
Proof.
  intros node_save_path.
  assert (Hgiven : In ("node_save_path", node_save_path)
                      GeneralSettings.zihua_1D_parallel_run_settings)
    by (simpl; auto).
  split; [split; [exact Hgiven | reflexivity] |].
  exact (unexpected_keyword_is_a_type_error GeneralSettings.zihua_1D_parallel_run_settings
           "node_save_path" node_save_path Hgiven eq_refl).
Defined.

End FurtherRuns.
